(** * irctk.bot: the context-dispatch loop, the registration decorators and
      the reply helper of [Bot], embedded over an explicit Python object store.

    The source is [src/irctk/bot.py], a Python 2 module.  Python dicts and
    lists are mutable objects reached through references, so the embedding
    keeps a heap of objects and passes references around exactly where the
    source does; a computation is a function from the world to an outcome (a
    value and a new world, a raised exception, or exhausted fuel for the
    loops and the recursion of the source that are not structurally
    bounded).  [PluginHandler], [IrcWrapper] and [Config] are not part of the
    source: their calls are recorded in the world, in the order they are
    made. *)

From Stdlib Require Import ZArith Ascii String.
From stdpp Require Import gmap strings list fin_maps.

Local Open Scope Z_scope.
Local Open Scope string_scope.

(** ** Python values and objects *)

(** A function object: its [func_name] and an identity. *)
Record function := Func { func_name : string; func_id : nat }.

Inductive pyval :=
  | VNone
  | VBool (b : bool)
  | VStr (s : string)
  | VFunc (f : function)
  | VRef (l : nat).

Inductive obj :=
  | ODict (d : gmap string pyval)      (* a dict with string keys *)
  | OList (l : list pyval)             (* a list *)
  | OInst (attrs : gmap string pyval). (* an instance of a plain class *)

Global Instance function_eq_dec : EqDecision function.
Proof. solve_decision. Defined.
Global Instance pyval_eq_dec : EqDecision pyval.
Proof. solve_decision. Defined.

(** One call of [PluginHandler.enqueue_plugin(plugin, hook, text)]. *)
Record call := Call { c_plugin : pyval; c_hook : pyval; c_text : pyval }.

(** One call of [IrcWrapper.send_message(recipient, message, action, notice)]. *)
Record send := Send
  { s_recipient : pyval; s_text : string; s_action : bool; s_notice : bool }.

(** One call of [PluginHandler.update_plugins(plugin, bucket)]. *)
Record registration := Registration { r_plugin : pyval; r_bucket : string }.

(** The world: the object store, the attributes the source reads
    ([self.irc.context], [self.config[...]], [Bot._instance]) and the calls
    made so far to the collaborators that are outside the source. *)
Record world := World
  { heap : gmap nat obj;
    irc_context : pyval;           (* self.irc.context *)
    CMD_PREFIX : string;           (* self.config['CMD_PREFIX'] *)
    PLUGINS : list pyval;          (* self.config['PLUGINS'] *)
    EVENTS : list pyval;           (* self.config['EVENTS'] *)
    Bot_instance : pyval;          (* Bot._instance *)
    enqueued : list call;
    sent : list send;
    registered : list registration }.

Definition set_heap (h : gmap nat obj) (w : world) : world :=
  World h (irc_context w) (CMD_PREFIX w) (PLUGINS w) (EVENTS w)
        (Bot_instance w) (enqueued w) (sent w) (registered w).

Definition set_Bot_instance (v : pyval) (w : world) : world :=
  World (heap w) (irc_context w) (CMD_PREFIX w) (PLUGINS w) (EVENTS w)
        v (enqueued w) (sent w) (registered w).

Definition log_call (c : call) (w : world) : world :=
  World (heap w) (irc_context w) (CMD_PREFIX w) (PLUGINS w) (EVENTS w)
        (Bot_instance w) (enqueued w ++ [c]) (sent w) (registered w).

Definition log_send (s : send) (w : world) : world :=
  World (heap w) (irc_context w) (CMD_PREFIX w) (PLUGINS w) (EVENTS w)
        (Bot_instance w) (enqueued w) (sent w ++ [s]) (registered w).

Definition log_registration (r : registration) (w : world) : world :=
  World (heap w) (irc_context w) (CMD_PREFIX w) (PLUGINS w) (EVENTS w)
        (Bot_instance w) (enqueued w) (sent w) (registered w ++ [r]).

Definition with_sent (s : list send) (w : world) : world :=
  World (heap w) (irc_context w) (CMD_PREFIX w) (PLUGINS w) (EVENTS w)
        (Bot_instance w) (enqueued w) s (registered w).

(** ** Computations *)

Inductive exn := KeyError | AttributeError | TypeError.

(** A raised exception keeps the world as it was when it was raised: Python
    does not undo the assignments made before it. *)
Inductive outcome (A : Type) :=
  | Ok (a : A) (w : world)
  | Raise (e : exn) (w : world)
  | Diverge.
Arguments Ok {A} a w.
Arguments Raise {A} e w.
Arguments Diverge {A}.

Definition M (A : Type) : Type := world → outcome A.

Definition ret {A} (a : A) : M A := λ w, Ok a w.
Definition raise {A} (e : exn) : M A := λ w, Raise e w.
Definition bind {A B} (m : M A) (k : A → M B) : M B :=
  λ w, match m w with
       | Ok a w' => k a w'
       | Raise e w' => Raise e w'
       | Diverge => Diverge
       end.

Notation "x <- m ;; k" := (bind m (λ x, k))
  (at level 100, m at next level, right associativity).
Notation "m ;;; k" := (bind m (λ _, k))
  (at level 100, right associativity).

Definition gets {A} (f : world → A) : M A := λ w, Ok (f w) w.
Definition modify (f : world → world) : M unit := λ w, Ok tt (f w).

(** [for x in l: f x] *)
Fixpoint for_each {A} (l : list A) (f : A → M unit) : M unit :=
  match l with
  | [] => ret tt
  | x :: l' => f x ;;; for_each l' f
  end.

(** [while cond: body], with the number of passes of the body as result. *)
Fixpoint while (fuel : nat) (cond : M bool) (body : M unit) : M nat :=
  match fuel with
  | O => λ _, Diverge
  | S fuel' =>
      c <- cond ;;
      if c then body ;;; n <- while fuel' cond body ;; ret (S n)
      else ret O
  end.

(** ** Primitives of the object store *)

(** A new object; its reference is one the store does not use yet. *)
Definition alloc (o : obj) : M pyval :=
  λ w, let l := fresh (dom (heap w)) in
       Ok (VRef l) (set_heap (<[l := o]> (heap w)) w).

Definition load_dict (v : pyval) : M (gmap string pyval) :=
  λ w, match v with
       | VRef l => match heap w !! l with
                   | Some (ODict d) => Ok d w
                   | _ => Raise TypeError w
                   end
       | _ => Raise TypeError w
       end.

Definition store_dict (v : pyval) (d : gmap string pyval) : M unit :=
  match v with
  | VRef l => modify (λ w, set_heap (<[l := ODict d]> (heap w)) w)
  | _ => raise TypeError
  end.

(** [v[k]] *)
Definition getitem (v : pyval) (k : string) : M pyval :=
  d <- load_dict v ;;
  match d !! k with
  | Some x => ret x
  | None => raise KeyError
  end.

(** [v.get(k, dflt)] *)
Definition dict_get (v : pyval) (k : string) (dflt : pyval) : M pyval :=
  d <- load_dict v ;; ret (default dflt (d !! k)).

(** [v[k] = x] *)
Definition setitem (v : pyval) (k : string) (x : pyval) : M unit :=
  d <- load_dict v ;; store_dict v (<[k := x]> d).

(** [v.setdefault(k, x)] *)
Definition setdefault (v : pyval) (k : string) (x : pyval) : M unit :=
  d <- load_dict v ;;
  match d !! k with
  | Some _ => ret tt
  | None => store_dict v (<[k := x]> d)
  end.

(** [v.update(kwargs)]: the keys of [kwargs] win. *)
Definition dict_update (v : pyval) (kwargs : gmap string pyval) : M unit :=
  d <- load_dict v ;; store_dict v (kwargs ∪ d).

(** [dict(v)]: a new dict object with the same keys and the same values
    (references are copied, the objects they point to are not). *)
Definition dict_copy (v : pyval) : M pyval :=
  d <- load_dict v ;; alloc (ODict d).

(** [v.append(x)] for a list [v]: the list object itself changes. *)
Definition list_append (v x : pyval) : M unit :=
  λ w, match v with
       | VRef l => match heap w !! l with
                   | Some (OList xs) =>
                       Ok tt (set_heap (<[l := OList (xs ++ [x])]> (heap w)) w)
                   | _ => Raise AttributeError w
                   end
       | _ => Raise AttributeError w
       end.

(** Truth value of a Python value. *)
Definition truthy (h : gmap nat obj) (v : pyval) : bool :=
  match v with
  | VNone => false
  | VBool b => b
  | VStr s => negb (String.eqb s "")
  | VFunc _ => true
  | VRef l =>
      match h !! l with
      | Some (ODict d) => negb (bool_decide (d = ∅))
      | Some (OList l) => negb (bool_decide (l = []))
      | _ => true
      end
  end.

Definition truth (v : pyval) : M bool := gets (λ w, truthy (heap w) v).

(** [v.startswith(p)]; only strings have the method. *)
Definition startswith (v : pyval) (p : string) : M bool :=
  match v with
  | VStr s => ret (String.prefix p s)
  | _ => raise AttributeError
  end.

Definition is_lower (c : ascii) : bool :=
  let n := nat_of_ascii c in ((97 <=? n) && (n <=? 122))%nat.
Definition is_upper (c : ascii) : bool :=
  let n := nat_of_ascii c in ((65 <=? n) && (n <=? 90))%nat.

(** [str.isupper]: no lower-case character and at least one upper-case one. *)
Fixpoint str_isupper_from (cased : bool) (s : string) : bool :=
  match s with
  | EmptyString => cased
  | String c s' =>
      if is_lower c then false
      else str_isupper_from (cased || is_upper c) s'
  end.
Definition str_isupper (s : string) : bool := str_isupper_from false s.

Definition isupper (v : pyval) : M bool :=
  match v with
  | VStr s => ret (str_isupper s)
  | _ => raise AttributeError
  end.

(** [p + v] for a string [p]. *)
Definition str_add (p : string) (v : pyval) : M pyval :=
  match v with
  | VStr s => ret (VStr (p +:+ s))
  | _ => raise TypeError
  end.

(** ** [Bot._parse_input] *)

(** [self.plugin.enqueue_plugin(plugin, hook, text)]: the handler is outside
    the source; the call is recorded. *)
Definition enqueue_plugin (plugin hook text : pyval) : M unit :=
  modify (log_call (Call plugin hook text)).

(** The property [context_stale]: [self.irc.context.get('stale', True)]. *)
Definition context_stale : M pyval :=
  ctx <- gets irc_context ;; dict_get ctx "stale" (VBool true).

(** Lines 93-96: the loop over [self.config['PLUGINS']]. *)
Definition offer_plugins (prefix : string) (message : pyval) : M unit :=
  plugins <- gets PLUGINS ;;
  for_each plugins (λ plugin,
    ctx <- gets irc_context ;;
    snapshot <- dict_copy ctx ;;
    setitem plugin "context" snapshot ;;;
    h <- getitem plugin "hook" ;;
    hook <- str_add prefix h ;;
    enqueue_plugin plugin hook message).

(** Lines 100-103: the loop over [self.config['EVENTS']]. *)
Definition offer_events (command : pyval) : M unit :=
  events <- gets EVENTS ;;
  for_each events (λ event,
    ctx <- gets irc_context ;;
    snapshot <- dict_copy ctx ;;
    setitem event "context" snapshot ;;;
    hook <- getitem event "hook" ;;
    enqueue_plugin event hook command).

(** Lines 91-106: the body of the inner [while]. *)
Definition matching (prefix : string) (command message : pyval) : M unit :=
  is_cmd <- startswith message prefix ;;
  (if is_cmd then offer_plugins prefix message else ret tt) ;;;
  has_command <- truth command ;;
  upper <- (if has_command then isupper command else ret false) ;;
  (if upper then offer_events command else ret tt) ;;;
  ctx <- gets irc_context ;;
  setitem ctx "stale" (VBool true).

(** Lines 83-106: one pass of the outer [while True] (the sleep aside), run
    under [self.irc.lock]; [prefix] was read before the loop.  The result is
    the number of passes of the inner [while]. *)
Definition cycle (prefix : string) (fuel : nat) : M nat :=
  args <- (ctx <- gets irc_context ;; dict_get ctx "args" VNone) ;;
  command <- (ctx <- gets irc_context ;; dict_get ctx "command" VNone) ;;
  message <- (ctx <- gets irc_context ;; dict_get ctx "message" VNone) ;;
  while fuel
    (stale <- context_stale ;;
     s <- truth stale ;;
     if negb s then truth args else ret false)
    (matching prefix command message).

(** [n] passes of the outer loop; the result is the total number of passes
    of the matching step. *)
Fixpoint cycles (prefix : string) (fuel : nat) (n : nat) : M nat :=
  match n with
  | O => ret O
  | S n' =>
      k <- cycle prefix fuel ;; k' <- cycles prefix fuel n' ;; ret (k + k')%nat
  end.

(** Lines 81-106: [_parse_input], cut after [n] passes of its outer loop
    (the loop itself never ends). *)
Definition _parse_input (fuel : nat) (n : nat) : M nat :=
  prefix <- gets CMD_PREFIX ;;
  cycles prefix fuel n.

(** ** [Bot.reply] *)

Fixpoint str_take (n : nat) (s : string) : string :=
  match n, s with
  | S n', String c s' => String c (str_take n' s')
  | _, _ => EmptyString
  end.

Fixpoint str_drop (n : nat) (s : string) : string :=
  match n, s with
  | S n', String _ s' => str_drop n' s'
  | _, _ => s
  end.

(** The position a slice bound [i] denotes in a sequence of length [n]: a
    negative bound counts from the end, and the result is clipped to
    [0..n]. *)
Definition slice_bound (i : Z) (n : nat) : nat :=
  Z.to_nat (if (i <? 0)%Z then Z.max (i + Z.of_nat n) 0 else Z.min i (Z.of_nat n)).

(** [s[:i]] and [s[i:]] *)
Definition slice_to (i : Z) (s : string) : string :=
  str_take (slice_bound i (String.length s)) s.
Definition slice_from (i : Z) (s : string) : string :=
  str_drop (slice_bound i (String.length s)) s.

(** Lines 184-188: the closure [handle_long_message]; [messages] is the list
    it appends to.  [None] when the fuel runs out. *)
Fixpoint handle_long_message (fuel : nat) (line_limit : Z) (message : string)
    (messages : list string) : option (list string) :=
  match fuel with
  | O => None
  | S fuel' =>
      let extra := slice_from line_limit message in
      let message := slice_to line_limit message in
      let messages := (messages ++ [message])%list in
      if negb (String.eqb extra "")
      then handle_long_message fuel' line_limit extra messages
      else Some messages
  end.

(** [self.irc.send_message(recipient, message, action, notice)]: outside the
    source; the call is recorded. *)
Definition send_message (recipient : pyval) (message : string)
    (action notice : bool) : M unit :=
  modify (log_send (Send recipient message action notice)).

(** Lines 177-180 *)
Definition reply_recipient (context : pyval) : M pyval :=
  sender <- getitem context "sender" ;;
  channel <- startswith sender "#" ;;
  if channel then getitem context "sender" else getitem context "user".

(** Lines 175-193 *)
Definition reply (fuel : nat) (message : string) (context : pyval)
    (action notice : bool) (line_limit : Z) : M unit :=
  recipient <- reply_recipient context ;;
  messages <- (λ w, match handle_long_message fuel line_limit message [] with
                    | Some l => Ok l w
                    | None => Diverge
                    end) ;;
  for_each messages (λ message, send_message recipient message action notice).

(** ** [Bot.command] *)

(** [self.plugin.update_plugins(plugin, bucket)]: outside the source; the call
    is recorded. *)
Definition update_plugins (plugin : pyval) (bucket : string) : M unit :=
  modify (log_registration (Registration plugin bucket)).

(** Lines 129-133: the closure [wrapper]; [plugin] is the dict it captured. *)
Definition wrapper (plugin : pyval) (func : function) : M pyval :=
  setdefault plugin "hook" (VStr (func_name func)) ;;;
  funcs <- alloc (OList [VFunc func]) ;;
  setitem plugin "funcs" funcs ;;;
  update_plugins plugin "PLUGINS" ;;;
  ret (VFunc func).

(** What [command] returns: the closure [wrapper] (with the dict it
    captured), or what [wrapper(hook)] returned. *)
Inductive decorated :=
  | Decorator (plugin : pyval)
  | Wrapped (f : pyval).

(** Lines 127-141.  A keyword named [hook] binds the parameter, so [kwargs]
    never has that key. *)
Definition command (hook : pyval) (kwargs : gmap string pyval) : M decorated :=
  plugin <- alloc (ODict ∅) ;;
  match hook with
  | VFunc f =>
      if negb (bool_decide (kwargs = ∅)) then
        (* [if hook:] a function is true *)
        setitem plugin "hook" hook ;;;
        dict_update plugin kwargs ;;;
        ret (Decorator plugin)
      else
        r <- wrapper plugin f ;; ret (Wrapped r)
  | _ =>
      h <- truth hook ;;
      (if h then setitem plugin "hook" hook else ret tt) ;;;
      dict_update plugin kwargs ;;;
      ret (Decorator plugin)
  end.

(** [@bot.command] above [def func] *)
Definition decorate_bare (func : function) : M decorated :=
  command (VFunc func) ∅.

(** [@bot.command(hook, ...)] above [def func]: the closure [command]
    returned is applied to [func].  (After [@bot.command(f)] it is the user's
    function [f] that would be called; nothing below goes that way.) *)
Definition decorate (hook : pyval) (kwargs : gmap string pyval)
    (func : function) : M pyval :=
  d <- command hook kwargs ;;
  match d with
  | Decorator plugin => wrapper plugin func
  | Wrapped _ => raise TypeError
  end.

(** ** [Bot.event] *)

(** Lines 154-157: the closure [wrapper] of [event]; [plugin] is the dict it
    captured. *)
Definition event_wrapper (plugin : pyval) (func : function) : M pyval :=
  funcs <- alloc (OList [VFunc func]) ;;
  setitem plugin "funcs" funcs ;;;
  update_plugins plugin "EVENTS" ;;;
  ret (VFunc func).

(** Lines 152-161.  As for [command], [kwargs] never has the key [hook]. *)
Definition event (hook : pyval) (kwargs : gmap string pyval) : M decorated :=
  plugin <- alloc (ODict ∅) ;;
  setitem plugin "hook" hook ;;;
  dict_update plugin kwargs ;;;
  ret (Decorator plugin).

(** [@bot.event(hook, ...)] above [def func] *)
Definition decorate_event (hook : pyval) (kwargs : gmap string pyval)
    (func : function) : M pyval :=
  d <- event hook kwargs ;;
  match d with
  | Decorator plugin => event_wrapper plugin func
  | Wrapped _ => raise TypeError
  end.

(** ** [Bot.__new__], [Bot.__init__] and the call [Bot(...)] *)

(** Lines 43-50.  [object.__new__] makes the instance. *)
Definition Bot_new (args : list pyval) (kwargs : gmap string pyval) : M pyval :=
  inst <- gets Bot_instance ;;
  t <- truth inst ;;
  (if negb t
   then o <- alloc (OInst ∅) ;; modify (set_Bot_instance o)
   else ret tt) ;;;
  gets Bot_instance.

(** [self.name = v] *)
Definition setattr (self : pyval) (name : string) (v : pyval) : M unit :=
  λ w, match self with
       | VRef l => match heap w !! l with
                   | Some (OInst a) =>
                       Ok tt (set_heap (<[l := OInst (<[name := v]> a)]> (heap w)) w)
                   | _ => Raise AttributeError w
                   end
       | _ => Raise AttributeError w
       end.

(** Lines 39-41: [__init__(self)] takes no other argument; [Config] and
    [PluginHandler] are outside the source and give new objects. *)
Definition Bot_init (self : pyval) (args : list pyval)
    (kwargs : gmap string pyval) : M unit :=
  if bool_decide (args = []) && bool_decide (kwargs = ∅) then
    config <- alloc (OInst ∅) ;;
    setattr self "config" config ;;;
    plugin <- alloc (OInst ∅) ;;
    setattr self "plugin" plugin
  else raise TypeError.

(** The call [Bot(...)]: [__new__], then [__init__] on its result, both with
    the arguments of the call. *)
Definition Bot (args : list pyval) (kwargs : gmap string pyval) : M pyval :=
  self <- Bot_new args kwargs ;;
  Bot_init self args kwargs ;;;
  ret self.

(** The calls [Bot(...)] of a list of argument lists, one after the other;
    for each one the instance it returned, or [None] when it raised. *)
Fixpoint constructions (l : list (list pyval * gmap string pyval)) (w : world)
    : list (option pyval) :=
  match l with
  | [] => []
  | (args, kwargs) :: l' =>
      match Bot args kwargs w with
      | Ok self w' => Some self :: constructions l' w'
      | Raise _ w' => None :: constructions l' w'
      | Diverge => []
      end
  end.

(** ** Notions the statements use *)

(** The default of the parameter [line_limit] of [reply]. *)
Definition default_line_limit : Z := 400.

Local Open Scope list_scope.


(** The chunks put back together. *)
Definition str_concat (l : list string) : string := foldr String.append "" l.

(** [ceiling(a / b)] for a positive [b]. *)
Definition ceil_div (a b : Z) : Z := (a + b - 1) / b.

(** The sends of one call of [reply]: one per chunk, to one recipient. *)
Definition sends_to (recipient : pyval) (action notice : bool)
    (chunks : list string) : list send :=
  map (λ c, Send recipient c action notice) chunks.

(** The dict a value refers to in a store. *)
Definition dict_at (h : gmap nat obj) (v : pyval) : option (gmap string pyval) :=
  match v with
  | VRef l => match h !! l with Some (ODict d) => Some d | _ => None end
  | _ => None
  end.

(** The dict [self.irc.context] refers to. *)
Definition live_context (w : world) : option (gmap string pyval) :=
  dict_at (heap w) (irc_context w).

(** The value under ['hook'] of the descriptor [p]. *)
Definition hook_of (w : world) (p : pyval) : option pyval :=
  d ← dict_at (heap w) p; d !! "hook".

(** The snapshot the descriptor [p] carries under ['context']. *)
Definition snapshot_ref (w : world) (p : pyval) : option pyval :=
  d ← dict_at (heap w) p; d !! "context".
Definition snapshot_of (w : world) (p : pyval) : option (gmap string pyval) :=
  s ← snapshot_ref w p; dict_at (heap w) s.

(** A fresh context: [stale] reads as false and [args] as true. *)
Definition fresh_context (w : world) : bool :=
  match live_context w with
  | Some d =>
      negb (truthy (heap w) (default (VBool true) (d !! "stale")))
      && truthy (heap w) (default VNone (d !! "args"))
  | None => false
  end.

(** The context has the fields of a parsed line: [message] is a string and
    [command] is a string or absent. *)
Definition typed_context (w : world) : bool :=
  match live_context w with
  | Some d =>
      match d !! "message", default VNone (d !! "command") with
      | Some (VStr _), (VNone | VStr _) => true
      | _, _ => false
      end
  | None => false
  end.

(** The registered descriptors are dicts other than the context; a plugin
    has a string under ['hook'], an event has some value there. *)
Definition plugin_ok (w : world) (p : pyval) : bool :=
  negb (bool_decide (p = irc_context w))
  && match hook_of w p with Some (VStr _) => true | _ => false end.
Definition event_ok (w : world) (p : pyval) : bool :=
  negb (bool_decide (p = irc_context w))
  && match hook_of w p with Some _ => true | None => false end.
Definition registry_ok (w : world) : bool :=
  forallb (plugin_ok w) (PLUGINS w) && forallb (event_ok w) (EVENTS w).

(** [message.startswith(prefix)] and [command and command.isupper()] as the
    matching step evaluates them on a typed context. *)
Definition is_command (w : world) (message : pyval) : bool :=
  match message with
  | VStr m => String.prefix (CMD_PREFIX w) m
  | _ => false
  end.
Definition is_event (command : pyval) : bool :=
  match command with
  | VStr c => str_isupper c
  | _ => false
  end.

(** The hook handed to [enqueue_plugin] for a plugin and for an event. *)
Definition prefixed (prefix : string) (hv : pyval) : pyval :=
  match hv with
  | VStr h => VStr (prefix +:+ h)
  | _ => VNone
  end.
Definition plugin_call (w : world) (message p : pyval) : call :=
  Call p (prefixed (CMD_PREFIX w) (default VNone (hook_of w p))) message.
Definition event_call (w : world) (command e : pyval) : call :=
  Call e (default VNone (hook_of w e)) command.

(** The calls of [enqueue_plugin] one matching step makes for plugins and
    for events. *)
Definition plugin_calls (w : world) (message : pyval) : list call :=
  if is_command w message then map (plugin_call w message) (PLUGINS w) else [].
Definition event_calls (w : world) (command : pyval) : list call :=
  if is_event command then map (event_call w command) (EVENTS w) else [].

(** One pass of either [for] loop of the matching step, for the descriptor
    [plugin]: [mk_hook] makes the hook from [plugin['hook']]. *)
Definition offer (mk_hook : pyval → M pyval) (text plugin : pyval) : M unit :=
  ctx <- gets irc_context ;;
  snapshot <- dict_copy ctx ;;
  setitem plugin "context" snapshot ;;;
  h <- getitem plugin "hook" ;;
  hook <- mk_hook h ;;
  enqueue_plugin plugin hook text.

(** The recipient [reply] chooses, read off the context dict [d]. *)
Definition recipient_of (d : gmap string pyval) : option pyval :=
  match d !! "sender" with
  | Some (VStr s) => if String.prefix "#" s then Some (VStr s) else d !! "user"
  | _ => None
  end.

(** What a run of [offer] over the descriptors [ps] does to the world, for a
    context dict [d]: the calls are recorded, every descriptor of [ps] gets a
    new dict equal to [d] under ['context'], nothing else changes. *)
Record offers_post (d : gmap string pyval) (ps : list pyval)
    (calls : list call) (w w' : world) : Prop := OffersPost
  { op_context : irc_context w' = irc_context w;
    op_prefix : CMD_PREFIX w' = CMD_PREFIX w;
    op_plugins : PLUGINS w' = PLUGINS w;
    op_events : EVENTS w' = EVENTS w;
    op_instance : Bot_instance w' = Bot_instance w;
    op_sent : sent w' = sent w;
    op_registered : registered w' = registered w;
    op_enqueued : enqueued w' = enqueued w ++ calls;
    op_mono : ∀ l, is_Some (heap w !! l) → is_Some (heap w' !! l);
    op_keep : ∀ l o, heap w !! l = Some o → VRef l ∉ ps → heap w' !! l = Some o;
    op_desc : ∀ l pd, heap w !! l = Some (ODict pd) → VRef l ∈ ps →
      ∃ s, heap w' !! l = Some (ODict (<["context" := VRef s]> pd))
           ∧ heap w' !! s = Some (ODict d) ∧ heap w !! s = None }.

(** The descriptors a loop can run over: dicts other than the context, with
    a hook [mk] accepts. *)
Definition offerable (c : nat) (mk : pyval → M pyval) (f : pyval → pyval)
    (w : world) (p : pyval) : Prop :=
  ∃ l pd hv, p = VRef l ∧ l ≠ c ∧ heap w !! l = Some (ODict pd)
             ∧ pd !! "hook" = Some hv ∧ ∀ w, mk hv w = Ok (f hv) w.

(** The descriptors one matching step offers, for a context dict [d]. *)
Definition offered (w : world) (d : gmap string pyval) : list pyval :=
  (if is_command w (default VNone (d !! "message")) then PLUGINS w else [])
  ++ (if is_event (default VNone (d !! "command")) then EVENTS w else []).

(** What one cycle does to a world whose context dict [d] is fresh. *)
Record dispatched (d : gmap string pyval) (w w' : world) : Prop := Dispatched
  { dp_context : irc_context w' = irc_context w;
    dp_prefix : CMD_PREFIX w' = CMD_PREFIX w;
    dp_plugins : PLUGINS w' = PLUGINS w;
    dp_events : EVENTS w' = EVENTS w;
    dp_instance : Bot_instance w' = Bot_instance w;
    dp_sent : sent w' = sent w;
    dp_registered : registered w' = registered w;
    dp_enqueued :
      enqueued w' = enqueued w
                    ++ plugin_calls w (default VNone (d !! "message"))
                    ++ event_calls w (default VNone (d !! "command"));
    dp_stale : live_context w' = Some (<["stale" := VBool true]> d);
    dp_keep : ∀ l o, heap w !! l = Some o → VRef l ≠ irc_context w →
      VRef l ∉ offered w d → heap w' !! l = Some o;
    dp_snapshot : ∀ p, p ∈ offered w d →
      ∃ l pd s, p = VRef l ∧ heap w !! l = Some (ODict pd)
        ∧ heap w' !! l = Some (ODict (<["context" := VRef s]> pd))
        ∧ heap w' !! s = Some (ODict d) ∧ heap w !! s = None
        ∧ VRef s ≠ irc_context w' }.

(** What a handler reads in a field of a dict: the value, a list by its
    items. *)
Inductive view :=
  | Plain (v : pyval)
  | Items (l : list pyval).

Definition field_view (h : gmap nat obj) (d : gmap string pyval) (k : string)
    : option view :=
  v ← d !! k;
  Some (match v with
        | VRef r => match h !! r with
                    | Some (OList l) => Items l
                    | _ => Plain v
                    end
        | _ => Plain v
        end).

(** The field [k] of the snapshot the descriptor [p] carries. *)
Definition snapshot_view (w : world) (p : pyval) (k : string) : option view :=
  d ← snapshot_of w p; field_view (heap w) d k.

(** [self.irc.context['args'].append(x)]: the sequence of the live context
    changed in place. *)
Definition append_to_args (x : pyval) : M unit :=
  ctx <- gets irc_context ;;
  args <- getitem ctx "args" ;;
  list_append args x.

(** The call [update_plugins(plugin, 'PLUGINS')] between [w] and [w'] was
    for a new dict whose hook is [hook] and whose functions are [[f]]. *)
Definition registers (w w' : world) (f : function) (hook : string) : Prop :=
  ∃ p fl pd,
    registered w' = registered w ++ [Registration (VRef p) "PLUGINS"]
    ∧ heap w !! p = None
    ∧ heap w' !! p = Some (ODict pd)
    ∧ pd !! "hook" = Some (VStr hook)
    ∧ pd !! "funcs" = Some (VRef fl)
    ∧ heap w' !! fl = Some (OList [VFunc f]).

(** [Bot._instance] is [None] or an instance. *)
Definition is_instance (w : world) (v : pyval) : bool :=
  match v with
  | VRef l => match heap w !! l with Some (OInst _) => true | _ => false end
  | _ => false
  end.
Definition instance_ok (w : world) : bool :=
  match Bot_instance w with
  | VNone => true
  | v => is_instance w v
  end.

(** A world to try the statements on: the line [PRIVMSG #c :.ping x] has
    just been parsed, one plugin [ping] and one event [PRIVMSG] are
    registered. *)
Definition example_args : list pyval := [VStr "#c"; VStr ".ping x"].
Definition example_context : gmap string pyval :=
  <["stale" := VBool false]> (<["args" := VRef 1%nat]>
  (<["message" := VStr ".ping x"]> (<["command" := VStr "PRIVMSG"]>
  (<["sender" := VStr "#c"]> (<["user" := VStr "alice"]> ∅))))).
Definition example_world : world :=
  World (<[0%nat := ODict example_context]>
          (<[1%nat := OList example_args]>
          (<[2%nat := ODict (<["hook" := VStr "ping"]> ∅)]>
          (<[3%nat := ODict (<["hook" := VStr "PRIVMSG"]> ∅)]> ∅))))
        (VRef 0%nat) "." [VRef 2%nat] [VRef 3%nat] VNone [] [] [].

(** The world before any line arrives: the context is the empty dict. *)
Definition idle_world : world :=
  World (<[0%nat := ODict ∅]> ∅) (VRef 0%nat) "." [] [] VNone [] [] [].

(** The hook [command] ends up with: the string given when it is not empty,
    the name of the function otherwise. *)
Definition chosen_hook (hook : pyval) (f : function) : string :=
  match hook with
  | VStr s => if String.eqb s "" then func_name f else s
  | _ => func_name f
  end.

(** The value under the key [k] of the descriptor [p], and the items of the
    list it has under ['funcs']. *)
Definition descriptor_field (w : world) (p : pyval) (k : string)
    : option pyval :=
  d ← dict_at (heap w) p; d !! k.
Definition funcs_of (w : world) (p : pyval) : option (list pyval) :=
  v ← descriptor_field w p "funcs";
  match v with
  | VRef fl => match heap w !! fl with Some (OList l) => Some l | _ => None end
  | _ => None
  end.

(** The attribute [name] of the instance [v]. *)
Definition attr_of (w : world) (v : pyval) (name : string) : option pyval :=
  match v with
  | VRef l => match heap w !! l with Some (OInst a) => a !! name | _ => None end
  | _ => None
  end.

(** What [prefix + plugin['hook']] raises for the value found under ['hook']:
    [KeyError] when there is none, [TypeError] when it is not a string. *)
Definition hook_error (o : option pyval) : option exn :=
  match o with
  | None => Some KeyError
  | Some (VStr _) => None
  | Some _ => Some TypeError
  end.

(** The characters of a string. *)
Fixpoint chars (s : string) : list ascii :=
  match s with
  | EmptyString => []
  | String c s' => c :: chars s'
  end.

(** The example world after the numeric reply [001]. *)
Definition numeric_context : gmap string pyval :=
  <["stale" := VBool false]> (<["args" := VRef 1%nat]>
  (<["message" := VStr "Welcome"]> (<["command" := VStr "001"]> ∅))).
Definition numeric_world : world :=
  World (<[0%nat := ODict numeric_context]>
          (<[1%nat := OList [VStr "bot"; VStr "Welcome"]]>
          (<[2%nat := ODict (<["hook" := VStr "ping"]> ∅)]>
          (<[3%nat := ODict (<["hook" := VStr "001"]> ∅)]> ∅))))
        (VRef 0%nat) "." [VRef 2%nat] [VRef 3%nat] VNone [] [] [].

(** The example world with a second plugin that has no hook, and with a
    context that has no message. *)
Definition broken_registry_world : world :=
  World (<[0%nat := ODict example_context]>
          (<[1%nat := OList example_args]>
          (<[2%nat := ODict (<["hook" := VStr "ping"]> ∅)]>
          (<[3%nat := ODict (<["hook" := VStr "PRIVMSG"]> ∅)]>
          (<[4%nat := ODict ∅]> ∅)))))
        (VRef 0%nat) "." [VRef 2%nat; VRef 4%nat] [VRef 3%nat] VNone [] [] [].
Definition no_message_context : gmap string pyval :=
  <["stale" := VBool false]> (<["args" := VRef 1%nat]>
  (<["command" := VStr "PING"]> ∅)).
Definition no_message_world : world :=
  World (<[0%nat := ODict no_message_context]>
          (<[1%nat := OList [VStr "irc.example.org"]]> ∅))
        (VRef 0%nat) "." [] [] VNone [] [] [].

(** The example world with an empty command prefix. *)
Definition no_prefix_world : world :=
  World (heap example_world) (VRef 0%nat) "" [VRef 2%nat] [VRef 3%nat]
        VNone [] [] [].

(** No two descriptors of [ps] carry the same snapshot object. *)
Definition snapshots_apart (ps : list pyval) (w : world) : Prop :=
  ∀ p q s, p ∈ ps → q ∈ ps → p ≠ q →
    snapshot_ref w p = Some s → snapshot_ref w q ≠ Some s.

(** ** Strings and slices *)

Lemma str_take_drop n s : str_take n s +:+ str_drop n s = s.
Proof.
  revert s; induction n as [|n IH]; intros [|c s]; simpl; try reflexivity.
  change (String c (str_take n s +:+ str_drop n s) = String c s).
  by rewrite IH.
Qed.

Lemma length_str_take n s : String.length (str_take n s) = (n `min` String.length s)%nat.
Proof.
  revert s; induction n as [|n IH]; intros [|c s]; simpl; try reflexivity.
  by rewrite IH.
Qed.

Lemma length_str_drop n s : String.length (str_drop n s) = (String.length s - n)%nat.
Proof.
  revert s; induction n as [|n IH]; intros [|c s]; simpl; try reflexivity.
  by rewrite IH.
Qed.

Lemma str_take_all n s : (String.length s ≤ n)%nat → str_take n s = s.
Proof.
  revert s; induction n as [|n IH]; intros [|c s]; simpl; intros H;
    try reflexivity; try lia.
  rewrite IH; [done | lia].
Qed.

Lemma str_empty_length s : String.eqb s "" = true ↔ String.length s = 0%nat.
Proof. destruct s; simpl; split; intros; done. Qed.


Lemma slice_to_from i s : slice_to i s +:+ slice_from i s = s.
Proof. apply str_take_drop. Qed.

Lemma slice_bound_pos (i : Z) (n : nat) :
  (1 ≤ i)%Z → slice_bound i n = (Z.to_nat i `min` n)%nat.
Proof.
  intros Hi. unfold slice_bound.
  destruct (Z.ltb_spec i 0); lia.
Qed.


Lemma str_drop_all n s : (String.length s ≤ n)%nat → str_drop n s = "".
Proof.
  revert s; induction n as [|n IH]; intros [|c s]; simpl; intros H;
    try reflexivity; try lia.
  apply IH; lia.
Qed.

Lemma ceil_div_short (a L : Z) :
  (1 ≤ L)%Z → (0 ≤ a ≤ L)%Z → Z.max 1 (ceil_div a L) = 1%Z.
Proof.
  intros HL Ha. unfold ceil_div.
  assert ((a + L - 1) / L < 2)%Z by (apply Z.div_lt_upper_bound; lia).
  lia.
Qed.

Lemma ceil_div_long (a L : Z) :
  (1 ≤ L)%Z → (L < a)%Z →
  Z.max 1 (ceil_div a L) = (1 + Z.max 1 (ceil_div (a - L) L))%Z.
Proof.
  intros HL Ha. unfold ceil_div.
  replace (a + L - 1)%Z with ((a - L + L - 1) + 1 * L)%Z by lia.
  rewrite Z.div_add by lia.
  assert (1 ≤ (a - L + L - 1) / L)%Z by (apply Z.div_le_lower_bound; lia).
  lia.
Qed.

Lemma str_append_empty_r s : s +:+ "" = s.
Proof.
  induction s as [|c s IH]; [done|].
  change (String c (s +:+ "") = String c s). by rewrite IH.
Qed.

Lemma str_concat_singleton s : str_concat [s] = s.
Proof. apply str_append_empty_r. Qed.

(** ** The chunk-splitting helper *)

Lemma handle_long_message_acc fuel L m acc :
  handle_long_message fuel L m acc = app acc <$> handle_long_message fuel L m [].
Proof.
  revert m acc; induction fuel as [|fuel IH]; intros m acc; simpl; [done|].
  destruct (negb (String.eqb (slice_from L m) "")); [|done].
  rewrite (IH _ (acc ++ _)), (IH _ [_]).
  destruct (handle_long_message fuel L (slice_from L m) []); simpl; [|done].
  by rewrite <- app_assoc.
Qed.

Lemma handle_long_message_short (L : Z) (m : string) fuel :
  (1 ≤ L)%Z → (Z.of_nat (String.length m) ≤ L)%Z →
  handle_long_message (S fuel) L m [] = Some [m].
Proof.
  intros HL Hs. simpl.
  unfold slice_from, slice_to. rewrite slice_bound_pos by done.
  rewrite str_drop_all, str_take_all by lia. reflexivity.
Qed.

(** What the helper gives for a limit of at least one: the chunks, for every
    fuel above the length of the message. *)
Lemma handle_long_message_split (L : Z) :
  (1 ≤ L)%Z →
  ∀ (n : nat) (m : string), (String.length m ≤ n)%nat →
  ∃ chunks,
    (∀ fuel, (n < fuel)%nat → handle_long_message fuel L m [] = Some chunks) ∧
    str_concat chunks = m ∧
    Forall (λ c, (Z.of_nat (String.length c) ≤ L)%Z) chunks ∧
    Z.of_nat (length chunks) = Z.max 1 (ceil_div (Z.of_nat (String.length m)) L).
Proof.
  intros HL. induction n as [|n IH]; intros m Hm;
    (destruct (decide (Z.of_nat (String.length m) ≤ L)%Z) as [Hs|Hl]; [|try lia]).
  1,2: exists [m];
    (split; [|split; [|split; [constructor; [done|constructor]|]]]);
    [ intros [|fuel] Hf; [lia|]; by apply handle_long_message_short
    | apply str_concat_singleton
    | simpl length; rewrite ceil_div_short; lia ].
  assert (Hb : slice_bound L (String.length m) = Z.to_nat L)
    by (rewrite slice_bound_pos by done; lia).
  assert (Hlen : String.length (slice_from L m)
                 = (String.length m - Z.to_nat L)%nat)
    by (unfold slice_from; rewrite Hb; apply length_str_drop).
  destruct (IH (slice_from L m)) as (chunks & Hrun & Hcat & Hall & Hcnt);
    [lia|].
  exists (slice_to L m :: chunks).
  split; [|split; [|split]].
  - intros [|fuel] Hf; [lia|]. simpl.
    assert (String.eqb (slice_from L m) "" = false) as ->.
    { apply not_true_iff_false. rewrite str_empty_length. lia. }
    simpl. rewrite handle_long_message_acc, Hrun by lia. reflexivity.
  - unfold str_concat in *. simpl. rewrite Hcat. apply slice_to_from.
  - constructor; [|done]. unfold slice_to. rewrite Hb, length_str_take. lia.
  - simpl length. rewrite (ceil_div_long (Z.of_nat (String.length m))) by lia.
    rewrite Nat2Z.inj_succ, Hcnt, Hlen.
    replace (Z.of_nat (String.length m - Z.to_nat L))
      with (Z.of_nat (String.length m) - L)%Z by lia.
    lia.
Qed.







(** ** Stepping through computations *)

Lemma bind_Ok {A B} (m : M A) (k : A → M B) w a w1 :
  m w = Ok a w1 → bind m k w = k a w1.
Proof. unfold bind. by intros ->. Qed.

Lemma with_sent_id w : with_sent (sent w) w = w.
Proof. by destruct w. Qed.

Lemma for_each_send recipient action notice chunks w :
  for_each chunks (λ m, send_message recipient m action notice) w
  = Ok tt (with_sent (sent w ++ sends_to recipient action notice chunks) w).
Proof.
  revert w; induction chunks as [|c chunks IH]; intros w; simpl.
  - unfold ret. by rewrite app_nil_r, with_sent_id.
  - unfold bind, send_message, modify at 1. rewrite IH.
    destruct w; unfold with_sent, log_send, sends_to; simpl.
    by rewrite <- app_assoc.
Qed.

Lemma bind_Raise {A B} (m : M A) (k : A → M B) w e w1 :
  m w = Raise e w1 → bind m k w = Raise e w1.
Proof. unfold bind. by intros ->. Qed.

Lemma load_dict_run l d w :
  heap w !! l = Some (ODict d) → load_dict (VRef l) w = Ok d w.
Proof. unfold load_dict. by intros ->. Qed.

Lemma getitem_run l d k x w :
  heap w !! l = Some (ODict d) → d !! k = Some x →
  getitem (VRef l) k w = Ok x w.
Proof.
  intros Hl Hk. unfold getitem.
  rewrite (bind_Ok _ _ _ _ _ (load_dict_run _ _ _ Hl)). by rewrite Hk.
Qed.

Lemma getitem_missing l d k w :
  heap w !! l = Some (ODict d) → d !! k = None →
  getitem (VRef l) k w = Raise KeyError w.
Proof.
  intros Hl Hk. unfold getitem.
  rewrite (bind_Ok _ _ _ _ _ (load_dict_run _ _ _ Hl)). by rewrite Hk.
Qed.

Lemma dict_get_run l d k dflt w :
  heap w !! l = Some (ODict d) →
  dict_get (VRef l) k dflt w = Ok (default dflt (d !! k)) w.
Proof.
  intros Hl. unfold dict_get.
  by rewrite (bind_Ok _ _ _ _ _ (load_dict_run _ _ _ Hl)).
Qed.

Lemma setitem_run l d k x w :
  heap w !! l = Some (ODict d) →
  setitem (VRef l) k x w
  = Ok tt (set_heap (<[l := ODict (<[k := x]> d)]> (heap w)) w).
Proof.
  intros Hl. unfold setitem.
  by rewrite (bind_Ok _ _ _ _ _ (load_dict_run _ _ _ Hl)).
Qed.

Lemma dict_copy_run l d w :
  heap w !! l = Some (ODict d) →
  dict_copy (VRef l) w
  = Ok (VRef (fresh (dom (heap w))))
       (set_heap (<[fresh (dom (heap w)) := ODict d]> (heap w)) w).
Proof.
  intros Hl. unfold dict_copy.
  by rewrite (bind_Ok _ _ _ _ _ (load_dict_run _ _ _ Hl)).
Qed.

Lemma fresh_not_allocated (h : gmap nat obj) : h !! fresh (dom h) = None.
Proof. apply not_elem_of_dom, is_fresh. Qed.

Lemma reply_recipient_run l d s w :
  heap w !! l = Some (ODict d) → d !! "sender" = Some (VStr s) →
  reply_recipient (VRef l) w
  = match recipient_of d with
    | Some r => Ok r w
    | None => Raise KeyError w
    end.
Proof.
  intros Hl Hs. unfold reply_recipient, recipient_of. rewrite Hs.
  rewrite (bind_Ok _ _ _ _ _ (getitem_run _ _ _ _ _ Hl Hs)).
  unfold startswith, bind at 1, ret.
  destruct (String.prefix "#" s); [by apply (getitem_run _ d)|].
  destruct (d !! "user") as [u|] eqn:Hu;
    [by apply (getitem_run _ d) | by apply (getitem_missing _ d)].
Qed.

(** The whole of [reply] on a context dict whose sender is a string. *)
Lemma reply_run fuel message l d s w action notice (L : Z) :
  heap w !! l = Some (ODict d) → d !! "sender" = Some (VStr s) →
  reply fuel message (VRef l) action notice L w
  = match recipient_of d with
    | None => Raise KeyError w
    | Some r =>
        match handle_long_message fuel L message [] with
        | None => Diverge
        | Some chunks =>
            Ok tt (with_sent (sent w ++ sends_to r action notice chunks) w)
        end
    end.
Proof.
  intros Hl Hs. unfold reply.
  unfold bind at 1. rewrite (reply_recipient_run l d s w Hl Hs).
  destruct (recipient_of d) as [r|]; [|done].
  unfold bind. destruct (handle_long_message fuel L message []); [|done].
  apply for_each_send.
Qed.

(** ** The two [for] loops of the matching step *)

Lemma offer_plugins_offer prefix message :
  offer_plugins prefix message
  = (plugins <- gets PLUGINS ;; for_each plugins (offer (str_add prefix) message)).
Proof. reflexivity. Qed.

Lemma offer_events_offer command :
  offer_events command
  = (events <- gets EVENTS ;; for_each events (offer ret command)).
Proof. reflexivity. Qed.

Lemma offers_post_nil d w : offers_post d [] [] w w.
Proof.
  split; try done.
  - by rewrite app_nil_r.
  - intros l pd _ Hin. by apply elem_of_nil in Hin.
Qed.

Lemma offers_post_app d ps1 ps2 c1 c2 w w1 w2 :
  offers_post d ps1 c1 w w1 → offers_post d ps2 c2 w1 w2 →
  (∀ l, VRef l ∈ ps2 → is_Some (heap w !! l)) →
  offers_post d (ps1 ++ ps2) (c1 ++ c2) w w2.
Proof.
  intros [] [] Halloc. split; try congruence.
  - rewrite op_enqueued1, op_enqueued0. by rewrite app_assoc.
  - auto.
  - intros l o Hl Hin. rewrite elem_of_app in Hin.
    apply op_keep1; [apply op_keep0|]; tauto.
  - intros l pd Hl Hin.
    assert (Hold : ∀ s, heap w1 !! s = None → heap w !! s = None).
    { intros s Hs. destruct (heap w !! s) eqn:E; [|done].
      destruct (op_mono0 s) as [? ?]; [by eexists | congruence]. }
    destruct (decide (VRef l ∈ ps2)) as [H2|H2].
    + destruct (decide (VRef l ∈ ps1)) as [H1|H1].
      * destruct (op_desc0 l pd Hl H1) as (s1 & Hl1 & _ & _).
        destruct (op_desc1 l _ Hl1 H2) as (s2 & Hl2 & Hs2 & Hn2).
        exists s2. rewrite insert_insert_eq in Hl2. auto.
      * destruct (op_desc1 l pd (op_keep0 l _ Hl H1) H2) as (s2 & ? & ? & ?).
        exists s2. auto.
    + assert (H1 : VRef l ∈ ps1) by (rewrite elem_of_app in Hin; tauto).
      destruct (op_desc0 l pd Hl H1) as (s1 & Hl1 & Hs1 & Hn1).
      exists s1. split; [auto|]. split; [|done].
      apply op_keep1; [done|]. intros Hs.
      destruct (Halloc _ Hs) as [? ?]. congruence.
Qed.

Lemma offers_post_hook d ps calls w w' l pd :
  offers_post d ps calls w w' → heap w !! l = Some (ODict pd) →
  ∃ pd', heap w' !! l = Some (ODict pd') ∧ pd' !! "hook" = pd !! "hook".
Proof.
  intros [] Hl. destruct (decide (VRef l ∈ ps)) as [Hin|Hin].
  - destruct (op_desc0 l pd Hl Hin) as (s & Hl' & _).
    eexists. split; [done|]. by rewrite lookup_insert_ne.
  - eexists. split; [by apply op_keep0|done].
Qed.

Lemma hook_of_dict w l pd :
  heap w !! l = Some (ODict pd) → hook_of w (VRef l) = pd !! "hook".
Proof. unfold hook_of, dict_at. by intros ->. Qed.

(** One pass. *)
Lemma offer_run d c mk hook text l pd hv w :
  irc_context w = VRef c → heap w !! c = Some (ODict d) →
  heap w !! l = Some (ODict pd) → l ≠ c → pd !! "hook" = Some hv →
  (∀ w, mk hv w = Ok hook w) →
  ∃ w', offer mk text (VRef l) w = Ok tt w'
        ∧ offers_post d [VRef l] [Call (VRef l) hook text] w w'.
Proof.
  intros Hctx Hc Hl Hne Hh Hmk.
  pose proof (fresh_not_allocated (heap w)) as Hfresh.
  set (s := fresh (dom (heap w))) in *.
  assert (Hls : l ≠ s) by congruence.
  assert (Hcs : c ≠ s) by congruence.
  set (w1 := set_heap (<[s := ODict d]> (heap w)) w).
  set (w2 := set_heap (<[l := ODict (<["context" := VRef s]> pd)]> (heap w1)) w1).
  exists (log_call (Call (VRef l) hook text) w2).
  split.
  - unfold offer.
    rewrite (bind_Ok _ _ w (irc_context w) w) by done. rewrite Hctx.
    rewrite (bind_Ok _ _ w (VRef s) w1) by (by apply dict_copy_run).
    assert (Hl1 : heap w1 !! l = Some (ODict pd))
      by (simpl; by rewrite lookup_insert_ne).
    rewrite (bind_Ok _ _ w1 tt w2) by (by apply setitem_run).
    assert (Hl2 : heap w2 !! l = Some (ODict (<["context" := VRef s]> pd)))
      by (simpl; by rewrite lookup_insert_eq).
    rewrite (bind_Ok _ _ w2 hv w2)
      by (apply (getitem_run _ _ _ _ _ Hl2); by rewrite lookup_insert_ne).
    by rewrite (bind_Ok _ _ w2 hook w2).
  - split; try done.
    + intros l0 [o Ho]. simpl.
      destruct (decide (l = l0)) as [->|]; [rewrite lookup_insert_eq; eauto|].
      rewrite lookup_insert_ne by done.
      destruct (decide (s = l0)) as [->|]; [rewrite lookup_insert_eq; eauto|].
      rewrite lookup_insert_ne by done. eauto.
    + intros l0 o Ho Hin. simpl.
      assert (l ≠ l0) by (intros ->; apply Hin; by left).
      assert (s ≠ l0) by congruence.
      by rewrite !lookup_insert_ne.
    + intros l0 pd0 Ho Hin. apply list_elem_of_singleton in Hin.
      injection Hin as ->. exists s. simpl.
      rewrite lookup_insert_eq, lookup_insert_ne, lookup_insert_eq by done.
      split; [congruence|done].
Qed.

(** The whole loop. *)
Lemma for_each_offer d c mk f text ps :
  ∀ w, irc_context w = VRef c → heap w !! c = Some (ODict d) →
  Forall (offerable c mk f w) ps →
  ∃ w', for_each ps (offer mk text) w = Ok tt w'
        ∧ offers_post d ps
            (map (λ p, Call p (f (default VNone (hook_of w p))) text) ps) w w'.
Proof.
  induction ps as [|p ps IH]; intros w Hctx Hc Hall.
  - exists w. split; [done|apply offers_post_nil].
  - apply Forall_cons in Hall as [(l & pd & hv & -> & Hne & Hl & Hh & Hmk) Hall].
    destruct (offer_run d c mk (f hv) text l pd hv w) as (w1 & Hrun & Hpost);
      try done.
    assert (Hall1 : Forall (offerable c mk f w1) ps).
    { eapply Forall_impl; [exact Hall|].
      intros p' (l' & pd' & hv' & -> & ? & Hl' & Hh' & ?).
      destruct (offers_post_hook _ _ _ _ _ _ _ Hpost Hl') as (pd1 & ? & Hk).
      exists l', pd1, hv'. repeat split; try done. congruence. }
    destruct (IH w1) as (w' & Hrun' & Hpost'); [| |done|].
    { by rewrite (op_context _ _ _ _ _ Hpost). }
    { apply (op_keep _ _ _ _ _ Hpost); [done|].
      intros Hin. apply list_elem_of_singleton in Hin. congruence. }
    exists w'. split.
    + simpl. by rewrite (bind_Ok _ _ _ _ _ Hrun).
    + assert (Hcalls :
        map (λ p, Call p (f (default VNone (hook_of w1 p))) text) ps
        = map (λ p, Call p (f (default VNone (hook_of w p))) text) ps).
      { apply map_ext_Forall. eapply Forall_impl; [exact Hall|].
        intros p' (l' & pd' & hv' & -> & ? & Hl' & Hh' & ?). simpl.
        destruct (offers_post_hook _ _ _ _ _ _ _ Hpost Hl') as (pd1 & Hl1 & Hk).
        by rewrite (hook_of_dict _ _ _ Hl1), (hook_of_dict _ _ _ Hl'), Hk. }
      rewrite Hcalls in Hpost'.
      simpl map. rewrite (hook_of_dict _ _ _ Hl), Hh. simpl default.
      apply (offers_post_app d [VRef l] ps [_] _ w w1 w'); try done.
      intros l' Hin. rewrite Forall_forall in Hall.
      destruct (Hall _ Hin) as (? & ? & ? & [= <-] & ? & -> & ?). eauto.
Qed.

(** ** The loops of [_parse_input] *)

Lemma while_false fuel cond body w :
  cond w = Ok false w → while (S fuel) cond body w = Ok O w.
Proof. intros Hc. simpl. by rewrite (bind_Ok _ _ _ _ _ Hc). Qed.

Lemma while_once fuel cond body w w1 :
  cond w = Ok true w → body w = Ok tt w1 → cond w1 = Ok false w1 →
  while (S (S fuel)) cond body w = Ok 1%nat w1.
Proof.
  intros Hc Hb Hc1. change (while (S (S fuel)) cond body) with
    (c <- cond ;; if c then body ;;; n <- while (S fuel) cond body ;; ret (S n)
                  else ret O).
  rewrite (bind_Ok _ _ _ _ _ Hc), (bind_Ok _ _ _ _ _ Hb).
  by rewrite (bind_Ok _ _ _ _ _ (while_false fuel cond body w1 Hc1)).
Qed.

Lemma live_context_ref w d :
  live_context w = Some d →
  ∃ c, irc_context w = VRef c ∧ heap w !! c = Some (ODict d).
Proof.
  unfold live_context, dict_at. destruct (irc_context w) as [| | | |c]; try done.
  destruct (heap w !! c) as [[]|] eqn:Hc; try done. intros [= ->]. eauto.
Qed.

(** The test of the inner [while]. *)
Lemma fresh_test_run w d args :
  live_context w = Some d →
  (stale <- context_stale ;;
   s <- truth stale ;;
   if negb s then truth args else ret false) w
  = Ok (negb (truthy (heap w) (default (VBool true) (d !! "stale")))
        && truthy (heap w) args) w.
Proof.
  intros (c & Hctx & Hc)%live_context_ref. unfold context_stale.
  rewrite (bind_Ok _ _ w (default (VBool true) (d !! "stale")) w).
  2:{ rewrite (bind_Ok _ _ w (irc_context w) w) by done. rewrite Hctx.
      by apply dict_get_run. }
  unfold truth, gets, bind, ret.
  by destruct (truthy (heap w) (default (VBool true) (d !! "stale"))).
Qed.

Lemma str_isupper_empty : str_isupper "" = false.
Proof. reflexivity. Qed.

Lemma plugins_offerable w c ps :
  irc_context w = VRef c → forallb (plugin_ok w) ps = true →
  Forall (offerable c (str_add (CMD_PREFIX w)) (prefixed (CMD_PREFIX w)) w) ps.
Proof.
  intros Hctx Hall. apply Forall_forall. intros p Hp.
  rewrite forallb_forall in Hall.
  specialize (Hall p (proj1 (list_elem_of_In _ _) Hp)).
  unfold plugin_ok in Hall. apply andb_true_iff in Hall as [Hne Hh].
  apply negb_true_iff, bool_decide_eq_false in Hne.
  unfold hook_of, dict_at in Hh.
  destruct p as [| | | |l]; try done.
  destruct (heap w !! l) as [[pd| |]|] eqn:Hl; try done. simpl in Hh.
  destruct (pd !! "hook") as [[| |h| |]|] eqn:Hk; try done.
  exists l, pd, (VStr h). repeat split; try done. congruence.
Qed.

Lemma events_offerable w c ps :
  irc_context w = VRef c → forallb (event_ok w) ps = true →
  Forall (offerable c ret id w) ps.
Proof.
  intros Hctx Hall. apply Forall_forall. intros p Hp.
  rewrite forallb_forall in Hall.
  specialize (Hall p (proj1 (list_elem_of_In _ _) Hp)).
  unfold event_ok in Hall. apply andb_true_iff in Hall as [Hne Hh].
  apply negb_true_iff, bool_decide_eq_false in Hne.
  unfold hook_of, dict_at in Hh.
  destruct p as [| | | |l]; try done.
  destruct (heap w !! l) as [[pd| |]|] eqn:Hl; try done. simpl in Hh.
  destruct (pd !! "hook") as [hv|] eqn:Hk; try done.
  exists l, pd, hv. repeat split; try done. congruence.
Qed.

Lemma offerable_post d ps calls c mk f w w1 p :
  offers_post d ps calls w w1 → offerable c mk f w p →
  offerable c mk f w1 p ∧ hook_of w1 p = hook_of w p.
Proof.
  intros Hpost (l & pd & hv & -> & ? & Hl & Hh & ?).
  destruct (offers_post_hook _ _ _ _ _ _ _ Hpost Hl) as (pd1 & Hl1 & Hk).
  split.
  - exists l, pd1, hv. repeat split; try done. congruence.
  - by rewrite (hook_of_dict _ _ _ Hl1), (hook_of_dict _ _ _ Hl), Hk.
Qed.

Lemma event_test_run {B} command (K : bool → M B) w :
  match command with VNone | VStr _ => True | _ => False end →
  (has_command <- truth command ;;
   upper <- (if has_command then isupper command else ret false) ;;
   K upper) w
  = K (is_event command) w.
Proof.
  destruct command as [| |c| |]; try done; intros _.
  unfold truth, gets, bind, ret, isupper, is_event, truthy.
  destruct c; [by rewrite str_isupper_empty|done].
Qed.

Lemma offer_plugins_run d c m w :
  irc_context w = VRef c → heap w !! c = Some (ODict d) →
  forallb (plugin_ok w) (PLUGINS w) = true →
  ∃ w1,
    (if is_command w (VStr m) then offer_plugins (CMD_PREFIX w) (VStr m)
     else ret tt) w = Ok tt w1
    ∧ offers_post d (if is_command w (VStr m) then PLUGINS w else [])
        (plugin_calls w (VStr m)) w w1.
Proof.
  intros Hctx Hc Hok. unfold plugin_calls.
  destruct (is_command w (VStr m)).
  - destruct (for_each_offer d c (str_add (CMD_PREFIX w))
                (prefixed (CMD_PREFIX w)) (VStr m) (PLUGINS w) w)
      as (w1 & Hrun & Hpost); [done | done | by apply plugins_offerable |].
    exists w1. split; [|exact Hpost].
    rewrite offer_plugins_offer. by rewrite (bind_Ok _ _ w (PLUGINS w) w).
  - exists w. split; [done | apply offers_post_nil].
Qed.

Lemma offer_events_run d c command w0 w :
  irc_context w = VRef c → heap w !! c = Some (ODict d) →
  EVENTS w = EVENTS w0 →
  Forall (λ e, offerable c ret id w e ∧ hook_of w e = hook_of w0 e) (EVENTS w) →
  ∃ w1,
    (if is_event command then offer_events command else ret tt) w = Ok tt w1
    ∧ offers_post d (if is_event command then EVENTS w0 else [])
        (event_calls w0 command) w w1.
Proof.
  intros Hctx Hc Hev Hok. unfold event_calls.
  destruct (is_event command).
  - destruct (for_each_offer d c ret id command (EVENTS w) w)
      as (w1 & Hrun & Hpost);
      [done | done | eapply Forall_impl; [exact Hok | by intros ? []] |].
    exists w1. split.
    + rewrite offer_events_offer. by rewrite (bind_Ok _ _ w (EVENTS w) w).
    + rewrite <- Hev.
      replace (map (event_call w0 command) (EVENTS w))
        with (map (λ p, Call p (id (default VNone (hook_of w p))) command)
                  (EVENTS w)); [exact Hpost|].
      apply map_ext_Forall. eapply Forall_impl; [exact Hok|].
      intros e [_ He]. unfold event_call, id. by rewrite He.
  - exists w. split; [done | apply offers_post_nil].
Qed.

(** The body of the inner [while] on a typed context. *)
Lemma matching_run d c m w :
  irc_context w = VRef c → heap w !! c = Some (ODict d) →
  d !! "message" = Some (VStr m) →
  match default VNone (d !! "command") with
  | VNone | VStr _ => True
  | _ => False
  end →
  registry_ok w = true →
  ∃ w', matching (CMD_PREFIX w) (default VNone (d !! "command")) (VStr m) w
        = Ok tt w'
        ∧ dispatched d w w'.
Proof.
  intros Hctx Hc Hm Hcmd Hreg.
  apply andb_true_iff in Hreg as [Hps Hes].
  set (command := default VNone (d !! "command")) in *.
  destruct (offer_plugins_run d c m w Hctx Hc Hps) as (w1 & Hrun1 & Hpost1).
  pose proof (events_offerable w c (EVENTS w) Hctx Hes) as Hoff.
  assert (Hc1 : heap w1 !! c = Some (ODict d)).
  { apply (op_keep _ _ _ _ _ Hpost1); [done|].
    intros Hin.
    assert (Hin' : VRef c ∈ PLUGINS w)
      by (destruct (is_command w (VStr m)); [done|by apply elem_of_nil in Hin]).
    pose proof (plugins_offerable w c _ Hctx Hps) as Hoffp.
    rewrite Forall_forall in Hoffp.
    destruct (Hoffp _ Hin') as (? & ? & ? & [= <-] & ? & _). done. }
  destruct (offer_events_run d c command w w1) as (w2 & Hrun2 & Hpost2).
  { by rewrite (op_context _ _ _ _ _ Hpost1). }
  { done. }
  { apply (op_events _ _ _ _ _ Hpost1). }
  { rewrite (op_events _ _ _ _ _ Hpost1).
    eapply Forall_impl; [exact Hoff|]. intros e He.
    by apply (offerable_post _ _ _ _ _ _ _ _ _ Hpost1). }
  assert (Hpost : offers_post d (offered w d)
                    (plugin_calls w (VStr m) ++ event_calls w command) w w2).
  { unfold offered. rewrite Hm. simpl default. fold command.
    eapply offers_post_app; [exact Hpost1 | exact Hpost2 |].
    intros l Hin.
    assert (Hin' : VRef l ∈ EVENTS w)
      by (destruct (is_event command); [done|by apply elem_of_nil in Hin]).
    rewrite Forall_forall in Hoff.
    destruct (Hoff _ Hin') as (? & ? & ? & [= <-] & ? & -> & _). eauto. }
  assert (Hc2 : heap w2 !! c = Some (ODict d)).
  { apply (op_keep _ _ _ _ _ Hpost2); [done|].
    intros Hin.
    assert (Hin' : VRef c ∈ EVENTS w)
      by (destruct (is_event command); [done|by apply elem_of_nil in Hin]).
    rewrite Forall_forall in Hoff.
    destruct (Hoff _ Hin') as (? & ? & ? & [= <-] & ? & _). done. }
  assert (Hctx2 : irc_context w2 = VRef c)
    by (by rewrite (op_context _ _ _ _ _ Hpost)).
  exists (set_heap (<[c := ODict (<["stale" := VBool true]> d)]> (heap w2)) w2).
  split.
  - unfold matching.
    change (startswith (VStr m) (CMD_PREFIX w))
      with (@ret bool (is_command w (VStr m))).
    rewrite (bind_Ok _ _ w (is_command w (VStr m)) w) by done.
    rewrite (bind_Ok _ _ w tt w1) by done.
    rewrite event_test_run by done.
    rewrite (bind_Ok _ _ w1 tt w2) by done.
    rewrite (bind_Ok _ _ w2 (irc_context w2) w2) by done.
    rewrite Hctx2. by apply setitem_run.
  - destruct Hpost. split; simpl; try done.
    + by rewrite Hm, op_enqueued0.
    + unfold live_context, dict_at. simpl. rewrite Hctx2.
      by rewrite lookup_insert_eq.
    + intros l o Hl Hne Hin. rewrite lookup_insert_ne by congruence. auto.
    + intros p Hin.
      assert (∃ l pd, p = VRef l ∧ l ≠ c ∧ heap w !! l = Some (ODict pd))
        as (l & pd & -> & Hne & Hl).
      { unfold offered in Hin. rewrite Hm in Hin. simpl default in Hin.
        fold command in Hin. apply elem_of_app in Hin as [Hin|Hin].
        - assert (Hin' : p ∈ PLUGINS w)
            by (destruct (is_command w (VStr m));
                [done|by apply elem_of_nil in Hin]).
          pose proof (plugins_offerable w c _ Hctx Hps) as Hoffp.
          rewrite Forall_forall in Hoffp.
          destruct (Hoffp _ Hin') as (l & pd & ? & -> & ? & ? & _). eauto.
        - assert (Hin' : p ∈ EVENTS w)
            by (destruct (is_event command);
                [done|by apply elem_of_nil in Hin]).
          rewrite Forall_forall in Hoff.
          destruct (Hoff _ Hin') as (l & pd & ? & -> & ? & ? & _). eauto. }
      destruct (op_desc0 l pd Hl Hin) as (s & Hl2 & Hs2 & Hs).
      assert (s ≠ c) by congruence.
      exists l, pd, s. rewrite !lookup_insert_ne by done.
      repeat split; try done. rewrite Hctx2. congruence.
Qed.

(** ** One cycle *)

Lemma cycle_unfold prefix fuel w c d :
  irc_context w = VRef c → heap w !! c = Some (ODict d) →
  cycle prefix fuel w
  = while fuel
      (stale <- context_stale ;;
       s <- truth stale ;;
       if negb s then truth (default VNone (d !! "args")) else ret false)
      (matching prefix (default VNone (d !! "command"))
                (default VNone (d !! "message"))) w.
Proof.
  intros Hctx Hc. unfold cycle.
  assert (Hget : ∀ k, (ctx <- gets irc_context ;; dict_get ctx k VNone) w
                      = Ok (default VNone (d !! k)) w).
  { intros k. rewrite (bind_Ok _ _ w (irc_context w) w) by done.
    rewrite Hctx. by apply dict_get_run. }
  by rewrite !(bind_Ok _ _ w _ w (Hget _)).
Qed.

Lemma fresh_context_eq w d :
  live_context w = Some d →
  fresh_context w
  = negb (truthy (heap w) (default (VBool true) (d !! "stale")))
    && truthy (heap w) (default VNone (d !! "args")).
Proof. unfold fresh_context. by intros ->. Qed.

(** A stale or empty context: the inner [while] is not entered. *)
Lemma cycle_idle prefix fuel w d :
  live_context w = Some d → fresh_context w = false →
  cycle prefix (S fuel) w = Ok O w.
Proof.
  intros Hlive Hfresh.
  destruct (live_context_ref _ _ Hlive) as (c & Hctx & Hc).
  rewrite (cycle_unfold _ _ _ _ _ Hctx Hc).
  apply while_false. rewrite (fresh_test_run _ _ _ Hlive).
  by rewrite <- (fresh_context_eq _ _ Hlive), Hfresh.
Qed.

Lemma cycles_idle prefix fuel w d n :
  live_context w = Some d → fresh_context w = false →
  cycles prefix (S fuel) n w = Ok O w.
Proof.
  intros Hlive Hfresh. induction n as [|n IH]; [done|].
  simpl. rewrite (bind_Ok _ _ _ _ _ (cycle_idle prefix fuel w d Hlive Hfresh)).
  by rewrite (bind_Ok _ _ _ _ _ IH).
Qed.

Lemma parse_input_idle fuel w d n :
  live_context w = Some d → fresh_context w = false →
  _parse_input (S fuel) n w = Ok O w.
Proof.
  intros Hlive Hfresh. unfold _parse_input.
  rewrite (bind_Ok _ _ w (CMD_PREFIX w) w) by done.
  by eapply cycles_idle.
Qed.

Lemma dispatched_stale d w w' : dispatched d w w' → fresh_context w' = false.
Proof.
  intros Hd. rewrite (fresh_context_eq _ _ (dp_stale _ _ _ Hd)).
  by rewrite lookup_insert_eq.
Qed.

(** A fresh, typed context: the inner [while] is passed once. *)
Lemma cycle_fresh w d :
  live_context w = Some d → fresh_context w = true →
  typed_context w = true → registry_ok w = true →
  ∃ w', (∀ fuel, cycle (CMD_PREFIX w) (S (S fuel)) w = Ok 1%nat w')
        ∧ dispatched d w w'.
Proof.
  intros Hlive Hfresh Htyped Hreg.
  destruct (live_context_ref _ _ Hlive) as (c & Hctx & Hc).
  unfold typed_context in Htyped. rewrite Hlive in Htyped.
  destruct (d !! "message") as [[| |m| |]|] eqn:Hm; try done.
  destruct (matching_run d c m w Hctx Hc Hm) as (w' & Hrun & Hd); [|done|].
  { by destruct (default VNone (d !! "command")). }
  exists w'. split; [|done]. intros fuel.
  rewrite (cycle_unfold _ _ _ _ _ Hctx Hc), Hm.
  apply while_once; [| exact Hrun |].
  - rewrite (fresh_test_run _ _ _ Hlive).
    by rewrite <- (fresh_context_eq _ _ Hlive), Hfresh.
  - rewrite (fresh_test_run _ _ _ (dp_stale _ _ _ Hd)).
    by rewrite lookup_insert_eq.
Qed.

(** ** Snapshots *)

Lemma field_view_dict_update (h : gmap nat obj) c x y d k :
  h !! c = Some (ODict y) →
  field_view (<[c := ODict x]> h) d k = field_view h d k.
Proof.
  intros Hc. unfold field_view. destruct (d !! k) as [[| | | |r]|]; try done.
  simpl. destruct (decide (c = r)) as [->|Hne].
  - by rewrite lookup_insert_eq, Hc.
  - by rewrite lookup_insert_ne.
Qed.

(** Binding a key of the live context leaves a snapshot held in another
    dict as it is. *)
Lemma snapshot_after_setitem w c l s pd d k v w' :
  irc_context w = VRef c → l ≠ c → s ≠ c →
  heap w !! l = Some (ODict pd) → pd !! "context" = Some (VRef s) →
  heap w !! s = Some (ODict d) →
  setitem (irc_context w) k v w = Ok tt w' →
  snapshot_of w' (VRef l) = Some d
  ∧ ∀ k', snapshot_view w' (VRef l) k' = snapshot_view w (VRef l) k'.
Proof.
  intros Hctx Hl Hs Hpd Hk Hd Hset. rewrite Hctx in Hset.
  unfold setitem, bind, load_dict in Hset.
  destruct (heap w !! c) as [[y| |]|] eqn:Hc; try done.
  injection Hset as <-.
  assert (Hsnap : ∀ h, h !! l = Some (ODict pd) → h !! s = Some (ODict d) →
            ∀ w0, heap w0 = h → snapshot_of w0 (VRef l) = Some d).
  { intros h H1 H2 w0 <-. unfold snapshot_of, snapshot_ref, dict_at.
    rewrite H1. simpl. rewrite Hk. simpl. by rewrite H2. }
  assert (Hnew : snapshot_of
            (set_heap (<[c := ODict (<[k := v]> y)]> (heap w)) w) (VRef l)
          = Some d).
  { apply (Hsnap (<[c := ODict (<[k := v]> y)]> (heap w)));
      [by rewrite lookup_insert_ne | by rewrite lookup_insert_ne | done]. }
  split; [done|]. intros k'. unfold snapshot_view.
  rewrite Hnew, (Hsnap _ Hpd Hd w eq_refl). simpl.
  by eapply field_view_dict_update.
Qed.

(** ** The dispatcher *)

(** C1.  On a context whose [stale] flag reads false and whose [args] are not
    empty, one cycle of [_parse_input] passes the matching step exactly once
    and leaves the context with [stale] set to [True]; the cycles after it
    find the context stale, do no matching and enqueue nothing, so the
    context is never matched a second time. *)
Theorem dispatch_marks_stale_once (w : world) (d : gmap string pyval)
    (fuel : nat) :
  live_context w = Some d → fresh_context w = true →
  typed_context w = true → registry_ok w = true →
  ∃ w', cycle (CMD_PREFIX w) (S (S fuel)) w = Ok 1%nat w'
        ∧ live_context w' = Some (<["stale" := VBool true]> d)
        ∧ fresh_context w' = false
        ∧ (∀ n, _parse_input (S (S fuel)) n w' = Ok O w')
        ∧ (∀ n, _parse_input (S (S fuel)) (S n) w = Ok 1%nat w').
Proof.
  intros Hlive Hfresh Htyped Hreg.
  destruct (cycle_fresh w d Hlive Hfresh Htyped Hreg) as (w' & Hrun & Hd).
  pose proof (dispatched_stale _ _ _ Hd) as Hstale.
  pose proof (dp_stale _ _ _ Hd) as Hlive'.
  exists w'. repeat split; try done.
  - intros n. by eapply parse_input_idle.
  - intros n. unfold _parse_input.
    rewrite (bind_Ok _ _ w (CMD_PREFIX w) w) by done.
    simpl. rewrite (bind_Ok _ _ _ _ _ (Hrun fuel)).
    by rewrite (bind_Ok _ _ _ _ _ (cycles_idle _ _ _ _ n Hlive' Hstale)).
Qed.

Lemma dispatch_marks_stale_once_witness :
  ∃ w', cycle "." 2 example_world = Ok 1%nat w'
        ∧ live_context w' = Some (<["stale" := VBool true]> example_context)
        ∧ fresh_context w' = false
        ∧ (∀ n, _parse_input 2 n w' = Ok O w')
        ∧ (∀ n, _parse_input 2 (S n) example_world = Ok 1%nat w').
Proof.
  apply (dispatch_marks_stale_once example_world example_context 0);
    reflexivity.
Defined.

(** C8.  On a context that is stale, or whose [args] are empty or absent,
    or that is the empty dict (where the missing [stale] reads as [True]),
    a cycle raises nothing, does no matching and leaves the world as it is;
    so does any number of cycles. *)
Theorem dispatch_idle_on_stale (w : world) (d : gmap string pyval)
    (fuel n : nat) :
  live_context w = Some d →
  d = ∅
  ∨ truthy (heap w) (default (VBool true) (d !! "stale")) = true
  ∨ truthy (heap w) (default VNone (d !! "args")) = false →
  cycle (CMD_PREFIX w) (S fuel) w = Ok O w
  ∧ _parse_input (S fuel) n w = Ok O w.
Proof.
  intros Hlive Hidle.
  assert (Hfresh : fresh_context w = false).
  { rewrite (fresh_context_eq _ _ Hlive).
    destruct Hidle as [-> | [-> | ->]]; [done | done | by rewrite andb_false_r]. }
  split; [by eapply cycle_idle | by eapply parse_input_idle].
Qed.

Lemma dispatch_idle_on_stale_witness :
  cycle "." 1 idle_world = Ok O idle_world
  ∧ _parse_input 1 5 idle_world = Ok O idle_world.
Proof.
  apply (dispatch_idle_on_stale idle_world ∅ 0 5); [reflexivity | by left].
Defined.

(** C4.  In a cycle over a fresh context the events are offered if and only
    if [command] is a string that [isupper] accepts: then every descriptor of
    [EVENTS] is handed to [enqueue_plugin], in order, with its own hook and
    the command as the text to compare it with; otherwise none is. *)
Theorem events_offered_iff_upper (w : world) (d : gmap string pyval)
    (fuel : nat) :
  live_context w = Some d → fresh_context w = true →
  typed_context w = true → registry_ok w = true →
  let command := default VNone (d !! "command") in
  let message := default VNone (d !! "message") in
  ∃ w', cycle (CMD_PREFIX w) (S (S fuel)) w = Ok 1%nat w'
        ∧ enqueued w'
          = enqueued w ++ plugin_calls w message ++ event_calls w command
        ∧ (is_event command = true
           ↔ ∃ c, d !! "command" = Some (VStr c) ∧ str_isupper c = true)
        ∧ (is_event command = true →
           event_calls w command
           = map (λ e, Call e (default VNone (hook_of w e)) command) (EVENTS w))
        ∧ (is_event command = false → event_calls w command = [])
        ∧ (∀ e, e ∈ EVENTS w →
             event_call w command e ∈ event_calls w command
             ↔ is_event command = true).
Proof.
  intros Hlive Hfresh Htyped Hreg command message.
  destruct (cycle_fresh w d Hlive Hfresh Htyped Hreg) as (w' & Hrun & Hd).
  exists w'. split; [done|]. split; [apply (dp_enqueued _ _ _ Hd)|].
  split; [|split; [|split]].
  - unfold command, is_event. split.
    + destruct (d !! "command") as [[| |c| |]|]; try done. eauto.
    + by intros (c & -> & ?).
  - unfold event_calls. by intros ->.
  - unfold event_calls. by intros ->.
  - intros e He. unfold event_calls. destruct (is_event command).
    + split; [done|]. intros _. by apply list_elem_of_fmap_2.
    + split; [|done]. by intros ?%elem_of_nil.
Qed.

Lemma events_offered_iff_upper_witness :
  ∃ w', cycle "." 2 example_world = Ok 1%nat w'
        ∧ enqueued w'
          = enqueued example_world
            ++ plugin_calls example_world (VStr ".ping x")
            ++ event_calls example_world (VStr "PRIVMSG")
        ∧ (is_event (VStr "PRIVMSG") = true
           ↔ ∃ c, example_context !! "command" = Some (VStr c)
                  ∧ str_isupper c = true)
        ∧ (is_event (VStr "PRIVMSG") = true →
           event_calls example_world (VStr "PRIVMSG")
           = map (λ e, Call e (default VNone (hook_of example_world e))
                              (VStr "PRIVMSG")) (EVENTS example_world))
        ∧ (is_event (VStr "PRIVMSG") = false →
           event_calls example_world (VStr "PRIVMSG") = [])
        ∧ (∀ e, e ∈ EVENTS example_world →
             event_call example_world (VStr "PRIVMSG") e
               ∈ event_calls example_world (VStr "PRIVMSG")
             ↔ is_event (VStr "PRIVMSG") = true).
Proof.
  apply (events_offered_iff_upper example_world example_context 0);
    reflexivity.
Defined.

(** C5.  In the cycle over one fresh context the calls of [enqueue_plugin]
    for plugins all come before those for events; when the message starts
    with the prefix and the command is upper-case, every plugin and every
    event is offered for that one context. *)
Theorem plugins_enqueued_before_events (w : world) (d : gmap string pyval)
    (fuel : nat) :
  live_context w = Some d → fresh_context w = true →
  typed_context w = true → registry_ok w = true →
  let command := default VNone (d !! "command") in
  let message := default VNone (d !! "message") in
  ∃ w', cycle (CMD_PREFIX w) (S (S fuel)) w = Ok 1%nat w'
        ∧ enqueued w'
          = enqueued w ++ plugin_calls w message ++ event_calls w command
        ∧ (∀ cp ce, cp ∈ plugin_calls w message → ce ∈ event_calls w command →
             ∃ before between after,
               enqueued w' = before ++ cp :: between ++ ce :: after)
        ∧ (is_command w message = true → is_event command = true →
             plugin_calls w message = map (plugin_call w message) (PLUGINS w)
             ∧ event_calls w command = map (event_call w command) (EVENTS w)).
Proof.
  intros Hlive Hfresh Htyped Hreg command message.
  destruct (cycle_fresh w d Hlive Hfresh Htyped Hreg) as (w' & Hrun & Hd).
  exists w'. split; [done|]. split; [apply (dp_enqueued _ _ _ Hd)|]. split.
  - intros cp ce (p1 & p2 & Hp)%list_elem_of_split
      (e1 & e2 & He)%list_elem_of_split.
    exists (enqueued w ++ p1), (p2 ++ e1), e2.
    rewrite (dp_enqueued _ _ _ Hd). fold command message. rewrite Hp, He.
    by rewrite <- !app_assoc.
  - unfold plugin_calls, event_calls. by intros -> ->.
Qed.

Lemma plugins_enqueued_before_events_witness :
  ∃ w', cycle "." 2 example_world = Ok 1%nat w'
        ∧ enqueued w'
          = enqueued example_world
            ++ plugin_calls example_world (VStr ".ping x")
            ++ event_calls example_world (VStr "PRIVMSG")
        ∧ (∀ cp ce, cp ∈ plugin_calls example_world (VStr ".ping x") →
             ce ∈ event_calls example_world (VStr "PRIVMSG") →
             ∃ before between after,
               enqueued w' = before ++ cp :: between ++ ce :: after)
        ∧ (is_command example_world (VStr ".ping x") = true →
           is_event (VStr "PRIVMSG") = true →
             plugin_calls example_world (VStr ".ping x")
             = map (plugin_call example_world (VStr ".ping x"))
                   (PLUGINS example_world)
             ∧ event_calls example_world (VStr "PRIVMSG")
               = map (event_call example_world (VStr "PRIVMSG"))
                     (EVENTS example_world)).
Proof.
  apply (plugins_enqueued_before_events example_world example_context 0);
    reflexivity.
Defined.

(** The calls of the cycle over the example world: the plugin, then the
    event. *)
Example example_cycle_calls :
  match cycle "." 2 example_world with
  | Ok n w' => Some (n, enqueued w')
  | _ => None
  end
  = Some (1%nat, [Call (VRef 2%nat) (VStr ".ping") (VStr ".ping x");
                  Call (VRef 3%nat) (VStr "PRIVMSG") (VStr "PRIVMSG")]).
Proof. vm_compute. reflexivity. Qed.

(** C3, as the source has it.  When the message of a fresh context starts
    with the prefix, every plugin descriptor is handed to [enqueue_plugin]
    carrying under ['context'] a new dict, other than the live one, whose
    fields equal those of the live context at that time.  Binding any key of
    the live context afterwards leaves the snapshot, and what a handler reads
    in each of its fields, unchanged.  The copy is one level deep: the
    snapshot's [args] is the very list object of the live context. *)
Theorem snapshot_is_shallow_copy (w : world) (d : gmap string pyval)
    (fuel : nat) (p : pyval) :
  live_context w = Some d → fresh_context w = true →
  typed_context w = true → registry_ok w = true →
  is_command w (default VNone (d !! "message")) = true → p ∈ PLUGINS w →
  ∃ w', cycle (CMD_PREFIX w) (S (S fuel)) w = Ok 1%nat w'
        ∧ plugin_call w (default VNone (d !! "message")) p ∈ enqueued w'
        ∧ snapshot_of w' p = Some d
        ∧ snapshot_ref w' p ≠ Some (irc_context w')
        ∧ (∀ k v w'', setitem (irc_context w') k v w' = Ok tt w'' →
             snapshot_of w'' p = Some d
             ∧ ∀ k', snapshot_view w'' p k' = snapshot_view w' p k')
        ∧ (∀ s, snapshot_ref w' p = Some s →
             getitem s "args" w' = getitem (irc_context w) "args" w').
Proof.
  intros Hlive Hfresh Htyped Hreg Hcmd Hp.
  destruct (cycle_fresh w d Hlive Hfresh Htyped Hreg) as (w' & Hrun & Hd).
  destruct (live_context_ref _ _ Hlive) as (c & Hctx & Hc).
  destruct (live_context_ref _ _ (dp_stale _ _ _ Hd)) as (c' & Hctx' & Hc').
  assert (c' = c) as -> by (rewrite (dp_context _ _ _ Hd) in Hctx'; congruence).
  assert (Hoff : p ∈ offered w d)
    by (unfold offered; rewrite Hcmd; apply elem_of_app; by left).
  destruct (dp_snapshot _ _ _ Hd p Hoff)
    as (l & pd & s & -> & Hl & Hl' & Hs' & Hs & Hne).
  assert (Hlc : l ≠ c).
  { apply andb_true_iff in Hreg as [Hps _].
    pose proof (plugins_offerable w c _ Hctx Hps) as Hoffp.
    rewrite Forall_forall in Hoffp.
    by destruct (Hoffp _ Hp) as (? & ? & ? & [= <-] & ? & _). }
  assert (Hsc : s ≠ c) by congruence.
  assert (Href : snapshot_ref w' (VRef l) = Some (VRef s)).
  { unfold snapshot_ref, dict_at. rewrite Hl'. simpl.
    by rewrite lookup_insert_eq. }
  exists w'. split; [done|]. split; [|split; [|split; [|split]]].
  - rewrite (dp_enqueued _ _ _ Hd). apply elem_of_app. right.
    apply elem_of_app. left. unfold plugin_calls. rewrite Hcmd.
    by apply list_elem_of_fmap_2.
  - unfold snapshot_of. rewrite Href. simpl. unfold dict_at. by rewrite Hs'.
  - rewrite Href. congruence.
  - intros k v w'' Hset.
    eapply (snapshot_after_setitem w' c l s); try done.
    by rewrite lookup_insert_eq.
  - intros s0 Hs0. rewrite Href in Hs0. injection Hs0 as <-. rewrite Hctx.
    destruct (d !! "args") as [a|] eqn:Ha.
    + rewrite (getitem_run _ _ _ _ _ Hs' Ha).
      symmetry. apply (getitem_run _ _ _ _ _ Hc'). by rewrite lookup_insert_ne.
    + rewrite (getitem_missing _ _ _ _ Hs' Ha).
      symmetry. apply (getitem_missing _ _ _ _ Hc'). by rewrite lookup_insert_ne.
Qed.

Lemma snapshot_is_shallow_copy_witness :
  ∃ w', cycle "." 2 example_world = Ok 1%nat w'
        ∧ plugin_call example_world (VStr ".ping x") (VRef 2%nat) ∈ enqueued w'
        ∧ snapshot_of w' (VRef 2%nat) = Some example_context
        ∧ snapshot_ref w' (VRef 2%nat) ≠ Some (irc_context w')
        ∧ (∀ k v w'', setitem (irc_context w') k v w' = Ok tt w'' →
             snapshot_of w'' (VRef 2%nat) = Some example_context
             ∧ ∀ k', snapshot_view w'' (VRef 2%nat) k'
                     = snapshot_view w' (VRef 2%nat) k')
        ∧ (∀ s, snapshot_ref w' (VRef 2%nat) = Some s →
             getitem s "args" w'
             = getitem (irc_context example_world) "args" w').
Proof.
  apply (snapshot_is_shallow_copy example_world example_context 0 (VRef 2%nat));
    try reflexivity.
  apply list_elem_of_here.
Defined.

(** C3 as stated fails: after the cycle over the example world, appending to
    the [args] list of the live context changes what the handler of the
    plugin reads in the [args] of its snapshot. *)
Lemma snapshot_aliases_args :
  match cycle "." 2 example_world with
  | Ok _ w' =>
      match append_to_args (VStr "zzz") w' with
      | Ok _ w'' =>
          snapshot_view w' (VRef 2%nat) "args" = Some (Items example_args)
          ∧ snapshot_view w'' (VRef 2%nat) "args"
            = Some (Items (example_args ++ [VStr "zzz"]))
          ∧ snapshot_view w'' (VRef 2%nat) "args"
            ≠ snapshot_view w' (VRef 2%nat) "args"
      | _ => False
      end
  | _ => False
  end.
Proof. vm_compute. repeat split; congruence. Qed.

(** ** [reply] *)

Lemma recipient_of_sender d r :
  recipient_of d = Some r → ∃ s, d !! "sender" = Some (VStr s).
Proof.
  unfold recipient_of. destruct (d !! "sender") as [[| |s| |]|]; try done.
  eauto.
Qed.



(** C6.  The recipient of a call of [reply] is the context's [sender] when
    that string starts with [#], and the context's [user] otherwise; every
    chunk of the call is sent to that one recipient. *)
Theorem reply_recipient_rule (w : world) (l : nat) (d : gmap string pyval)
    (s : string) (message : string) (action notice : bool) (line_limit : Z)
    (fuel : nat) :
  heap w !! l = Some (ODict d) → d !! "sender" = Some (VStr s) →
  (String.prefix "#" s = true → reply_recipient (VRef l) w = Ok (VStr s) w)
  ∧ (String.prefix "#" s = false → ∀ u, d !! "user" = Some u →
       reply_recipient (VRef l) w = Ok u w)
  ∧ (∀ w', reply fuel message (VRef l) action notice line_limit w = Ok tt w' →
       ∃ r chunks,
         reply_recipient (VRef l) w = Ok r w
         ∧ w' = with_sent (sent w ++ sends_to r action notice chunks) w)
  ∧ (∀ r, reply_recipient (VRef l) w = Ok r w →
       (1 ≤ line_limit)%Z → (String.length message < fuel)%nat →
       ∃ chunks,
         chunks ≠ []
         ∧ reply fuel message (VRef l) action notice line_limit w
           = Ok tt (with_sent (sent w ++ sends_to r action notice chunks) w)).
Proof.
  intros Hl Hs.
  pose proof (reply_recipient_run l d s w Hl Hs) as Hrec.
  pose proof (reply_run fuel message l d s w action notice line_limit Hl Hs)
    as Hrun.
  unfold recipient_of in Hrec, Hrun. rewrite Hs in Hrec, Hrun.
  split; [|split; [|split]].
  - intros Hp. by rewrite Hp in Hrec.
  - intros Hp u Hu. by rewrite Hp, Hu in Hrec.
  - intros w' Hw'. rewrite Hrun in Hw'.
    destruct (if String.prefix "#" s then Some (VStr s) else d !! "user")
      as [r|]; [|done].
    destruct (handle_long_message fuel line_limit message []) as [chunks|];
      [|done].
    injection Hw' as <-. by exists r, chunks.
  - intros r Hr HL Hfuel. rewrite Hrun. rewrite Hr in Hrec.
    destruct (if String.prefix "#" s then Some (VStr s) else d !! "user")
      as [r'|]; [|done].
    injection Hrec as ->.
    destruct (handle_long_message_split line_limit HL (String.length message)
                message (le_n _)) as (chunks & Hh & _ & _ & Hcnt).
    exists chunks. rewrite (Hh fuel Hfuel). split; [|done].
    intros ->. simpl in Hcnt. lia.
Qed.

Lemma reply_recipient_rule_witness :
  (String.prefix "#" "#c" = true →
     reply_recipient (VRef 0%nat) example_world = Ok (VStr "#c") example_world)
  ∧ (String.prefix "#" "#c" = false → ∀ u, example_context !! "user" = Some u →
       reply_recipient (VRef 0%nat) example_world = Ok u example_world)
  ∧ (∀ w', reply 6 "hello" (VRef 0%nat) false false 2 example_world = Ok tt w' →
       ∃ r chunks,
         reply_recipient (VRef 0%nat) example_world = Ok r example_world
         ∧ w' = with_sent (sent example_world ++ sends_to r false false chunks)
                          example_world)
  ∧ (∀ r, reply_recipient (VRef 0%nat) example_world = Ok r example_world →
       (1 ≤ 2)%Z → (String.length "hello" < 6)%nat →
       ∃ chunks,
         chunks ≠ []
         ∧ reply 6 "hello" (VRef 0%nat) false false 2 example_world
           = Ok tt (with_sent (sent example_world
                               ++ sends_to r false false chunks) example_world)).
Proof.
  apply (reply_recipient_rule example_world 0 example_context "#c" "hello"
           false false 2 6); reflexivity.
Defined.

(** A sender that is a nick: the recipient is the user. *)
Example reply_to_user :
  let d := <["sender" := VStr "bot"]> (<["user" := VStr "alice"]> ∅) in
  let w := World (<[0%nat := ODict d]> ∅) (VRef 0%nat) "." [] [] VNone [] [] [] in
  match reply 6 "hello" (VRef 0%nat) false false 2 w with
  | Ok _ w' => Some (sent w')
  | _ => None
  end
  = Some [Send (VStr "alice") "he" false false;
          Send (VStr "alice") "ll" false false;
          Send (VStr "alice") "o" false false].
Proof. vm_compute. reflexivity. Qed.




(** ** [command] *)

Lemma setdefault_run p pd k x w :
  heap w !! p = Some (ODict pd) →
  ∃ w1, setdefault (VRef p) k x w = Ok tt w1
        ∧ heap w1 !! p
          = Some (ODict (match pd !! k with
                         | Some _ => pd
                         | None => <[k := x]> pd
                         end))
        ∧ registered w1 = registered w.
Proof.
  intros Hp. unfold setdefault.
  rewrite (bind_Ok _ _ _ _ _ (load_dict_run _ _ _ Hp)).
  destruct (pd !! k).
  - by exists w.
  - eexists. split; [reflexivity|]. simpl. by rewrite lookup_insert_eq.
Qed.

Lemma dict_update_run l d kwargs w :
  heap w !! l = Some (ODict d) →
  dict_update (VRef l) kwargs w
  = Ok tt (set_heap (<[l := ODict (kwargs ∪ d)]> (heap w)) w).
Proof.
  intros Hl. unfold dict_update.
  by rewrite (bind_Ok _ _ _ _ _ (load_dict_run _ _ _ Hl)).
Qed.

Lemma wrapper_run p pd f w :
  heap w !! p = Some (ODict pd) →
  ∃ w' fl,
    wrapper (VRef p) f w = Ok (VFunc f) w'
    ∧ registered w' = registered w ++ [Registration (VRef p) "PLUGINS"]
    ∧ heap w' !! p
      = Some (ODict (<["funcs" := VRef fl]>
                       (match pd !! "hook" with
                        | Some _ => pd
                        | None => <["hook" := VStr (func_name f)]> pd
                        end)))
    ∧ heap w' !! fl = Some (OList [VFunc f]).
Proof.
  intros Hp.
  destruct (setdefault_run p pd "hook" (VStr (func_name f)) w Hp)
    as (w1 & Hrun1 & Hp1 & Hreg1).
  pose proof (fresh_not_allocated (heap w1)) as Hfresh.
  set (fl := fresh (dom (heap w1))) in *.
  assert (Hne : p ≠ fl) by congruence.
  set (w2 := set_heap (<[fl := OList [VFunc f]]> (heap w1)) w1).
  assert (Hp2 : heap w2 !! p = heap w1 !! p)
    by (simpl; by rewrite lookup_insert_ne).
  rewrite Hp1 in Hp2.
  eexists _, fl. split; [|split; [|split]].
  - unfold wrapper. rewrite (bind_Ok _ _ _ _ _ Hrun1).
    rewrite (bind_Ok _ _ w1 (VRef fl) w2) by done.
    rewrite (bind_Ok _ _ _ _ _ (setitem_run _ _ "funcs" (VRef fl) _ Hp2)).
    unfold update_plugins. unfold bind, modify, ret. reflexivity.
  - simpl. by rewrite Hreg1.
  - simpl. by rewrite lookup_insert_eq.
  - simpl. by rewrite lookup_insert_ne, lookup_insert_eq.
Qed.

(** [command] with a hook that is not a function: the closure is returned,
    over a new dict. *)
Lemma command_run hook kwargs w :
  match hook with VFunc _ => False | _ => True end →
  ∃ p w1,
    command hook kwargs w = Ok (Decorator (VRef p)) w1
    ∧ heap w !! p = None
    ∧ registered w1 = registered w
    ∧ heap w1 !! p
      = Some (ODict (kwargs ∪ (if truthy (<[p := ODict ∅]> (heap w)) hook
                               then {["hook" := hook]} else ∅))).
Proof.
  intros Hhook.
  pose proof (fresh_not_allocated (heap w)) as Hfresh.
  set (p := fresh (dom (heap w))) in *.
  set (w1 := set_heap (<[p := ODict ∅]> (heap w)) w).
  assert (Hp1 : heap w1 !! p = Some (ODict ∅))
    by (simpl; by rewrite lookup_insert_eq).
  assert (Hcmd : command hook kwargs w
          = (h <- truth hook ;;
             (if h then setitem (VRef p) "hook" hook else ret tt) ;;;
             dict_update (VRef p) kwargs ;;;
             ret (Decorator (VRef p))) w1).
  { unfold command. rewrite (bind_Ok _ _ w (VRef p) w1) by done.
    by destruct hook. }
  rewrite Hcmd.
  rewrite (bind_Ok _ _ w1 (truthy (heap w1) hook) w1) by done.
  change (truthy (heap w1) hook)
    with (truthy (<[p := ODict ∅]> (heap w)) hook).
  destruct (truthy (<[p := ODict ∅]> (heap w)) hook) eqn:Ht.
  - set (w2 := set_heap (<[p := ODict (<["hook" := hook]> ∅)]> (heap w1)) w1).
    assert (Hp2 : heap w2 !! p = Some (ODict (<["hook" := hook]> ∅)))
      by (simpl; by rewrite lookup_insert_eq).
    rewrite (bind_Ok _ _ w1 tt w2) by (by apply setitem_run).
    rewrite (bind_Ok _ _ _ _ _ (dict_update_run _ _ kwargs _ Hp2)).
    eexists p, _. split; [reflexivity|]. split; [done|]. split; [done|].
    rewrite Ht. simpl. rewrite lookup_insert_eq. by rewrite insert_empty.
  - rewrite (bind_Ok _ _ w1 tt w1) by done.
    rewrite (bind_Ok _ _ _ _ _ (dict_update_run _ _ kwargs _ Hp1)).
    eexists p, _. split; [reflexivity|]. split; [done|]. split; [done|].
    rewrite Ht. simpl. by rewrite lookup_insert_eq.
Qed.

Lemma decorate_run hook kwargs f w :
  match hook with VNone | VStr _ => True | _ => False end →
  kwargs !! "hook" = None →
  ∃ w', decorate hook kwargs f w = Ok (VFunc f) w'
        ∧ registers w w' f (chosen_hook hook f).
Proof.
  intros Hhook Hkw.
  destruct (command_run hook kwargs w) as (p & w1 & Hcmd & Hnew & Hreg & Hp1);
    [by destruct hook|].
  destruct (wrapper_run p _ f w1 Hp1) as (w' & fl & Hwrap & Hreg' & Hp' & Hfl).
  exists w'. split.
  - unfold decorate. by rewrite (bind_Ok _ _ _ _ _ Hcmd).
  - eexists p, fl, _. split; [by rewrite Hreg', Hreg|]. split; [done|].
    split; [exact Hp'|]. split; [|split; [by rewrite lookup_insert_eq|done]].
    rewrite lookup_insert_ne by done.
    assert (Hempty : (kwargs ∪ (∅ : gmap string pyval)) !! "hook" = None)
      by (by rewrite lookup_union_r).
    destruct hook as [| |s| |]; try done; simpl truthy; simpl chosen_hook.
    + cbv iota. rewrite Hempty. by rewrite lookup_insert_eq.
    + destruct (String.eqb s "") eqn:Hs; simpl negb; cbv iota.
      * rewrite Hempty. by rewrite lookup_insert_eq.
      * assert (Hk : (kwargs ∪ {["hook" := VStr s]}) !! "hook" = Some (VStr s))
          by (rewrite lookup_union_r by done; apply lookup_singleton_eq).
        by rewrite Hk.
Qed.

Lemma decorate_bare_run f w :
  ∃ w', decorate_bare f w = Ok (Wrapped (VFunc f)) w'
        ∧ registers w w' f (func_name f).
Proof.
  pose proof (fresh_not_allocated (heap w)) as Hfresh.
  set (p := fresh (dom (heap w))) in *.
  set (w1 := set_heap (<[p := ODict ∅]> (heap w)) w).
  assert (Hp1 : heap w1 !! p = Some (ODict ∅))
    by (simpl; by rewrite lookup_insert_eq).
  destruct (wrapper_run p _ f w1 Hp1) as (w' & fl & Hwrap & Hreg' & Hp' & Hfl).
  exists w'. split.
  - unfold decorate_bare, command.
    rewrite (bind_Ok _ _ w (VRef p) w1) by done.
    rewrite bool_decide_eq_true_2 by done. cbn [negb].
    by rewrite (bind_Ok _ _ _ _ _ Hwrap).
  - eexists p, fl, _. split; [done|]. split; [done|].
    split; [exact Hp'|]. split; [|split; [by rewrite lookup_insert_eq|done]].
    rewrite lookup_insert_ne by done. rewrite lookup_empty.
    by rewrite lookup_insert_eq.
Qed.

(** C7, as the source has it.  Used bare, or called without a hook, the
    decorator registers a new descriptor whose hook is the name of the wrapped
    function and whose functions are that one function; called with a string
    that is not empty, the hook is that string.  The empty string is taken as
    no hook. *)
Theorem command_hook_default (w : world) (f : function)
    (kwargs : gmap string pyval) :
  kwargs !! "hook" = None →
  (∃ w', decorate_bare f w = Ok (Wrapped (VFunc f)) w'
         ∧ registers w w' f (func_name f))
  ∧ (∃ w', decorate VNone kwargs f w = Ok (VFunc f) w'
           ∧ registers w w' f (func_name f))
  ∧ (∀ s, s ≠ "" →
       ∃ w', decorate (VStr s) kwargs f w = Ok (VFunc f) w'
             ∧ registers w w' f s)
  ∧ (∃ w', decorate (VStr "") kwargs f w = Ok (VFunc f) w'
           ∧ registers w w' f (func_name f)).
Proof.
  intros Hkw. split; [apply decorate_bare_run|].
  split; [by apply (decorate_run VNone)|]. split.
  - intros s Hs. destruct (decorate_run (VStr s) kwargs f w I Hkw)
      as (w' & Hrun & Hreg).
    exists w'. split; [done|]. simpl in Hreg.
    destruct (String.eqb_spec s ""); [done|exact Hreg].
  - by apply (decorate_run (VStr "")).
Qed.

Lemma command_hook_default_witness :
  (∃ w', decorate_bare (Func "pong" 7) example_world
         = Ok (Wrapped (VFunc (Func "pong" 7))) w'
         ∧ registers example_world w' (Func "pong" 7) "pong")
  ∧ (∃ w', decorate VNone ∅ (Func "pong" 7) example_world
           = Ok (VFunc (Func "pong" 7)) w'
           ∧ registers example_world w' (Func "pong" 7) "pong")
  ∧ (∀ s, s ≠ "" →
       ∃ w', decorate (VStr s) ∅ (Func "pong" 7) example_world
             = Ok (VFunc (Func "pong" 7)) w'
             ∧ registers example_world w' (Func "pong" 7) s)
  ∧ (∃ w', decorate (VStr "") ∅ (Func "pong" 7) example_world
           = Ok (VFunc (Func "pong" 7)) w'
           ∧ registers example_world w' (Func "pong" 7) "pong").
Proof.
  apply (command_hook_default example_world (Func "pong" 7) ∅).
  reflexivity.
Defined.

(** C7 as stated fails for the empty string: [@bot.command('')] above
    [def pong] registers the hook ["pong"], not [""]. *)
Lemma command_empty_hook_ignored :
  match decorate (VStr "") ∅ (Func "pong" 7) example_world with
  | Ok _ w' =>
      match last (registered w') with
      | Some r =>
          hook_of w' (r_plugin r) = Some (VStr "pong")
          ∧ hook_of w' (r_plugin r) ≠ Some (VStr "")
      | None => False
      end
  | _ => False
  end.
Proof. vm_compute. split; congruence. Qed.

(** ** [Bot(...)] *)

Lemma is_instance_ref w v :
  is_instance w v = true → ∃ l a, v = VRef l ∧ heap w !! l = Some (OInst a).
Proof.
  destruct v as [| | | |l]; try done. simpl.
  destruct (heap w !! l) as [[| |a]|] eqn:Hl; try done. eauto.
Qed.

Lemma Bot_new_again args kwargs w :
  is_instance w (Bot_instance w) = true →
  Bot_new args kwargs w = Ok (Bot_instance w) w.
Proof.
  intros (l & a & Hi & Hl)%is_instance_ref. unfold Bot_new.
  rewrite (bind_Ok _ _ w (Bot_instance w) w) by done.
  rewrite (bind_Ok _ _ w true w); [done|].
  unfold truth, gets. by rewrite Hi; simpl; rewrite Hl.
Qed.

Lemma Bot_new_run args kwargs w :
  instance_ok w = true →
  ∃ w', Bot_new args kwargs w = Ok (Bot_instance w') w'
        ∧ is_instance w' (Bot_instance w') = true
        ∧ (Bot_instance w ≠ VNone → w' = w).
Proof.
  intros Hok. unfold instance_ok in Hok.
  destruct (Bot_instance w) as [| | | |l] eqn:Hi; try done.
  - pose proof (fresh_not_allocated (heap w)) as Hfresh.
    set (l := fresh (dom (heap w))) in *.
    exists (set_Bot_instance (VRef l)
              (set_heap (<[l := OInst ∅]> (heap w)) w)).
    split; [|split; [|done]].
    + unfold Bot_new. rewrite (bind_Ok _ _ w (Bot_instance w) w) by done.
      rewrite Hi. by rewrite (bind_Ok _ _ w false w).
    + simpl. by rewrite lookup_insert_eq.
  - exists w. rewrite Hi. split; [|done].
    rewrite <- Hi. apply Bot_new_again. by rewrite Hi.
Qed.

Lemma setattr_run l a name v w :
  heap w !! l = Some (OInst a) →
  setattr (VRef l) name v w
  = Ok tt (set_heap (<[l := OInst (<[name := v]> a)]> (heap w)) w).
Proof. unfold setattr. by intros ->. Qed.

Lemma Bot_init_run self w :
  is_instance w self = true →
  ∃ w', Bot_init self [] ∅ w = Ok tt w'
        ∧ Bot_instance w' = Bot_instance w
        ∧ is_instance w' self = true.
Proof.
  intros (l & a & -> & Hl)%is_instance_ref.
  pose proof (fresh_not_allocated (heap w)) as Hf1.
  set (c := fresh (dom (heap w))) in *.
  set (w1 := set_heap (<[c := OInst ∅]> (heap w)) w).
  assert (Hl1 : heap w1 !! l = Some (OInst a))
    by (simpl; rewrite lookup_insert_ne; [done|congruence]).
  set (w2 := set_heap (<[l := OInst (<["config" := VRef c]> a)]> (heap w1)) w1).
  pose proof (fresh_not_allocated (heap w2)) as Hf2.
  set (q := fresh (dom (heap w2))) in *.
  set (w3 := set_heap (<[q := OInst ∅]> (heap w2)) w2).
  assert (Hl3 : heap w3 !! l = Some (OInst (<["config" := VRef c]> a))).
  { assert (Hl2 : heap w2 !! l ≠ None)
      by (simpl; by rewrite lookup_insert_eq).
    assert (l ≠ q) by congruence.
    simpl. rewrite lookup_insert_ne by done. by rewrite lookup_insert_eq. }
  eexists. split; [|split].
  - unfold Bot_init. rewrite !bool_decide_eq_true_2 by done. cbn [andb].
    rewrite (bind_Ok _ _ w (VRef c) w1) by done.
    rewrite (bind_Ok _ _ w1 tt w2) by (by apply setattr_run).
    rewrite (bind_Ok _ _ w2 (VRef q) w3) by done.
    by apply setattr_run.
  - done.
  - simpl. by rewrite lookup_insert_eq.
Qed.

Lemma Bot_init_arguments self args kwargs w :
  ¬ (args = [] ∧ kwargs = ∅) →
  Bot_init self args kwargs w = Raise TypeError w.
Proof.
  intros Hne. unfold Bot_init.
  destruct (decide (args = [])) as [Ha|Ha].
  - rewrite (bool_decide_eq_true_2 _ Ha).
    rewrite bool_decide_eq_false_2; [done|]. intros Hk. by apply Hne.
  - by rewrite (bool_decide_eq_false_2 _ Ha).
Qed.

(** One call [Bot(...)]: either it has no argument and returns the
    instance, or it raises; in both cases the class keeps an instance. *)
Lemma Bot_run args kwargs w :
  instance_ok w = true →
  ∃ w', is_instance w' (Bot_instance w') = true
        ∧ (Bot_instance w ≠ VNone → Bot_instance w' = Bot_instance w)
        ∧ ((args = [] ∧ kwargs = ∅
            ∧ Bot args kwargs w = Ok (Bot_instance w') w')
           ∨ (¬ (args = [] ∧ kwargs = ∅)
              ∧ Bot args kwargs w = Raise TypeError w')).
Proof.
  intros Hok.
  destruct (Bot_new_run args kwargs w Hok) as (w1 & Hnew & Hi1 & Hsame).
  destruct (decide (args = [] ∧ kwargs = ∅)) as [[-> ->]|Hne].
  - destruct (Bot_init_run _ w1 Hi1) as (w2 & Hinit & Hi2 & Hinst2).
    exists w2. rewrite Hi2. split; [done|]. split.
    + intros Hn. by rewrite (Hsame Hn).
    + left. repeat split. unfold Bot.
      rewrite (bind_Ok _ _ _ _ _ Hnew). by rewrite (bind_Ok _ _ _ _ _ Hinit).
  - exists w1. split; [done|]. split.
    + intros Hn. by rewrite (Hsame Hn).
    + right. split; [done|]. unfold Bot.
      rewrite (bind_Ok _ _ _ _ _ Hnew).
      by rewrite (bind_Raise _ _ _ _ _ (Bot_init_arguments _ _ _ _ Hne)).
Qed.

Lemma is_instance_ok w :
  is_instance w (Bot_instance w) = true →
  instance_ok w = true ∧ Bot_instance w ≠ VNone.
Proof.
  intros Hi. unfold instance_ok.
  destruct (Bot_instance w); try done.
Qed.

Lemma constructions_instance calls :
  ∀ w, is_instance w (Bot_instance w) = true →
  ∀ v, Some v ∈ constructions calls w → v = Bot_instance w.
Proof.
  induction calls as [|[args kwargs] calls IH]; intros w Hi v Hin.
  - by apply elem_of_nil in Hin.
  - destruct (is_instance_ok w Hi) as [Hok Hne].
    destruct (Bot_run args kwargs w Hok) as (w' & Hi' & Hsame & Hrun).
    simpl in Hin.
    destruct Hrun as [(_ & _ & Hrun) | (_ & Hrun)]; rewrite Hrun in Hin;
      apply elem_of_cons in Hin as [Hin|Hin].
    + injection Hin as ->. auto.
    + rewrite <- (Hsame Hne). by apply IH.
    + done.
    + rewrite <- (Hsame Hne). by apply IH.
Qed.

(** C9, as the source has it.  [__new__] returns the one instance of the
    class whatever its arguments are, making it on the first call; a call
    [Bot()] returns that instance, and any two calls that return, among any
    sequence of calls, return the same object.  A call [Bot(...)] with an
    argument does not return: [__init__] takes none and raises. *)
Theorem Bot_is_singleton (w : world) :
  instance_ok w = true →
  (∀ args kwargs, ∃ i w',
     Bot_new args kwargs w = Ok i w'
     ∧ ∀ args' kwargs', Bot_new args' kwargs' w' = Ok i w')
  ∧ (∃ i w', Bot [] ∅ w = Ok i w' ∧ Bot_instance w' = i
             ∧ ∀ args' kwargs', Bot_new args' kwargs' w' = Ok i w')
  ∧ (∀ calls v1 v2,
       Some v1 ∈ constructions calls w → Some v2 ∈ constructions calls w →
       v1 = v2)
  ∧ (∀ args kwargs, ¬ (args = [] ∧ kwargs = ∅) →
       ∃ w', Bot args kwargs w = Raise TypeError w').
Proof.
  intros Hok. split; [|split; [|split]].
  - intros args kwargs.
    destruct (Bot_new_run args kwargs w Hok) as (w' & Hnew & Hi & _).
    exists (Bot_instance w'), w'. split; [done|].
    intros args' kwargs'. by apply Bot_new_again.
  - destruct (Bot_run [] ∅ w Hok) as (w' & Hi & _ & [(_ & _ & Hrun)|[Hne _]]).
    + exists (Bot_instance w'), w'. repeat split; try done.
      intros args' kwargs'. by apply Bot_new_again.
    + by destruct Hne.
  - intros [|[args kwargs] calls] v1 v2 H1 H2.
    { by apply elem_of_nil in H1. }
    destruct (Bot_run args kwargs w Hok) as (w' & Hi' & _ & Hrun).
    assert (Hall : ∀ v, Some v ∈ constructions ((args, kwargs) :: calls) w →
                        v = Bot_instance w').
    { intros v Hin. simpl in Hin.
      destruct Hrun as [(_ & _ & Hrun) | (_ & Hrun)]; rewrite Hrun in Hin;
        apply elem_of_cons in Hin as [Hin|Hin]; try done.
      - by injection Hin.
      - by apply (constructions_instance calls w').
      - by apply (constructions_instance calls w'). }
    by rewrite (Hall v1 H1), (Hall v2 H2).
  - intros args kwargs Hne.
    destruct (Bot_run args kwargs w Hok) as (w' & _ & _ & [(?&?&_)|[_ Hrun]]);
      [by destruct Hne | by exists w'].
Qed.

Lemma Bot_is_singleton_witness :
  (∀ args kwargs, ∃ i w',
     Bot_new args kwargs example_world = Ok i w'
     ∧ ∀ args' kwargs', Bot_new args' kwargs' w' = Ok i w')
  ∧ (∃ i w', Bot [] ∅ example_world = Ok i w' ∧ Bot_instance w' = i
             ∧ ∀ args' kwargs', Bot_new args' kwargs' w' = Ok i w')
  ∧ (∀ calls v1 v2,
       Some v1 ∈ constructions calls example_world →
       Some v2 ∈ constructions calls example_world →
       v1 = v2)
  ∧ (∀ args kwargs, ¬ (args = [] ∧ kwargs = ∅) →
       ∃ w', Bot args kwargs example_world = Raise TypeError w').
Proof. apply (Bot_is_singleton example_world). reflexivity. Defined.

(** The calls [Bot()], [Bot(None)], [Bot()] in the example world. *)
Example example_constructions :
  constructions [([], ∅); ([VNone], ∅); ([], ∅)] example_world
  = [Some (VRef 4%nat); None; Some (VRef 4%nat)].
Proof. vm_compute. reflexivity. Qed.

(** C9 as stated fails for a call with an argument: [Bot('x')] raises
    [TypeError] and returns no instance. *)
Lemma Bot_with_argument_raises :
  ¬ (∃ i w', Bot [VStr "x"] ∅ example_world = Ok i w')
  ∧ match Bot [VStr "x"] ∅ example_world with
    | Raise TypeError _ => True
    | _ => False
    end.
Proof.
  split; [|by vm_compute].
  intros (i & w' & Hrun).
  assert (Hr : match Bot [VStr "x"] ∅ example_world with
               | Ok _ _ => False
               | _ => True
               end) by (by vm_compute).
  by rewrite Hrun in Hr.
Qed.

(** * Further properties of the code *)

(** ** The decorators [command] and [event] *)

Lemma descriptor_field_dict w l pd k :
  heap w !! l = Some (ODict pd) → descriptor_field w (VRef l) k = pd !! k.
Proof. unfold descriptor_field, dict_at. by intros ->. Qed.

Lemma funcs_of_dict w l pd fl fs :
  heap w !! l = Some (ODict pd) → pd !! "funcs" = Some (VRef fl) →
  heap w !! fl = Some (OList fs) → funcs_of w (VRef l) = Some fs.
Proof.
  intros Hl Hf Hfl. unfold funcs_of.
  rewrite (descriptor_field_dict _ _ _ _ Hl), Hf. simpl. by rewrite Hfl.
Qed.

(** The dict [command] leaves for its closure, when the hook is not a
    function. *)
Lemma command_dict hook kwargs w :
  match hook with VNone | VStr _ => True | _ => False end →
  kwargs !! "hook" = None →
  ∃ p w1 pd0,
    command hook kwargs w = Ok (Decorator (VRef p)) w1
    ∧ heap w !! p = None
    ∧ registered w1 = registered w
    ∧ heap w1 !! p = Some (ODict pd0)
    ∧ (∀ k, k ≠ "hook" → pd0 !! k = kwargs !! k)
    ∧ (∀ f, default (VStr (func_name f)) (pd0 !! "hook")
            = VStr (chosen_hook hook f)).
Proof.
  intros Hhook Hkw.
  destruct (command_run hook kwargs w) as (p & w1 & Hcmd & Hnew & Hreg & Hp1);
    [by destruct hook|].
  eexists p, w1, _. split; [done|]. split; [done|]. split; [done|].
  split; [exact Hp1|].
  destruct hook as [| |s| |]; try done; simpl truthy; simpl chosen_hook.
  - cbv iota. split.
    + intros k _. by rewrite lookup_union_l.
    + intros f. by rewrite lookup_union_l, Hkw.
  - destruct (String.eqb s "") eqn:Hs; simpl negb; cbv iota.
    + split.
      * intros k _. by rewrite lookup_union_l.
      * intros f. by rewrite lookup_union_l, Hkw.
    + split.
      * intros k Hk. rewrite lookup_union_l; [done|].
        by apply lookup_singleton_ne.
      * intros f. rewrite lookup_union_r by done.
        by rewrite lookup_singleton_eq.
Qed.

(** What one application of the closure of [command] does to its dict. *)
Lemma wrapper_dict p pd f w :
  heap w !! p = Some (ODict pd) →
  ∃ w' fl pd',
    wrapper (VRef p) f w = Ok (VFunc f) w'
    ∧ registered w' = registered w ++ [Registration (VRef p) "PLUGINS"]
    ∧ heap w' !! p = Some (ODict pd')
    ∧ pd' !! "funcs" = Some (VRef fl)
    ∧ heap w' !! fl = Some (OList [VFunc f])
    ∧ pd' !! "hook" = Some (default (VStr (func_name f)) (pd !! "hook"))
    ∧ (∀ k, k ≠ "hook" → k ≠ "funcs" → pd' !! k = pd !! k).
Proof.
  intros Hp.
  destruct (wrapper_run p pd f w Hp) as (w' & fl & Hrun & Hreg & Hp' & Hfl).
  eexists w', fl, _. split; [done|]. split; [done|]. split; [exact Hp'|].
  split; [by rewrite lookup_insert_eq|]. split; [done|]. split.
  - rewrite lookup_insert_ne by done.
    destruct (pd !! "hook") as [h|] eqn:Hh; [done|].
    by rewrite lookup_insert_eq.
  - intros k Hk1 Hk2. rewrite lookup_insert_ne by done.
    destruct (pd !! "hook"); [done|]. by rewrite lookup_insert_ne.
Qed.

(** X3.  The descriptor [command] registers keeps every keyword option
    given to the decorator, except that a ['funcs'] option is replaced: the
    functions are always the one wrapped function. *)
Theorem command_keeps_options (w : world) (hook : pyval)
    (kwargs : gmap string pyval) (f : function) :
  match hook with VNone | VStr _ => True | _ => False end →
  kwargs !! "hook" = None →
  ∃ w' l,
    decorate hook kwargs f w = Ok (VFunc f) w'
    ∧ registered w' = registered w ++ [Registration (VRef l) "PLUGINS"]
    ∧ funcs_of w' (VRef l) = Some [VFunc f]
    ∧ (∀ k, k ≠ "hook" → k ≠ "funcs" →
         descriptor_field w' (VRef l) k = kwargs !! k).
Proof.
  intros Hhook Hkw.
  destruct (command_dict hook kwargs w Hhook Hkw)
    as (p & w1 & pd0 & Hcmd & _ & Hreg1 & Hp1 & Hopts & _).
  destruct (wrapper_dict p pd0 f w1 Hp1)
    as (w' & fl & pd' & Hrun & Hreg & Hp' & Hf & Hfl & _ & Hkeep).
  exists w', p. split; [|split; [|split]].
  - unfold decorate. by rewrite (bind_Ok _ _ _ _ _ Hcmd).
  - by rewrite Hreg, Hreg1.
  - by apply (funcs_of_dict _ _ _ _ _ Hp' Hf).
  - intros k Hk1 Hk2. rewrite (descriptor_field_dict _ _ _ _ Hp').
    rewrite Hkeep by done. by apply Hopts.
Qed.

Lemma command_keeps_options_witness :
  ∃ w' l,
    decorate (VStr "ping") (<["funcs" := VNone]> (<["threaded" := VBool true]> ∅))
             (Func "pong" 7) example_world
    = Ok (VFunc (Func "pong" 7)) w'
    ∧ registered w'
      = registered example_world ++ [Registration (VRef l) "PLUGINS"]
    ∧ funcs_of w' (VRef l) = Some [VFunc (Func "pong" 7)]
    ∧ (∀ k, k ≠ "hook" → k ≠ "funcs" →
         descriptor_field w' (VRef l) k
         = (<["funcs" := VNone]> (<["threaded" := VBool true]> ∅)
            : gmap string pyval) !! k).
Proof.
  apply (command_keeps_options example_world (VStr "ping")
           (<["funcs" := VNone]> (<["threaded" := VBool true]> ∅))
           (Func "pong" 7)); [exact I | reflexivity].
Defined.

(** X4.  The closure [command] returns captures one dict: applied to [f]
    and then to [g], it hands that same dict to [update_plugins] twice; the
    hook stays what the first application made it (the name of [f] when none
    was given) and the functions become [[g]]. *)
Theorem command_closure_shares_its_dict (w : world) (hook : pyval)
    (kwargs : gmap string pyval) (f g : function) :
  match hook with VNone | VStr _ => True | _ => False end →
  kwargs !! "hook" = None →
  ∃ l w1 w2 w3,
    command hook kwargs w = Ok (Decorator (VRef l)) w1
    ∧ wrapper (VRef l) f w1 = Ok (VFunc f) w2
    ∧ wrapper (VRef l) g w2 = Ok (VFunc g) w3
    ∧ registered w3
      = registered w ++ [Registration (VRef l) "PLUGINS";
                         Registration (VRef l) "PLUGINS"]
    ∧ descriptor_field w3 (VRef l) "hook" = Some (VStr (chosen_hook hook f))
    ∧ funcs_of w2 (VRef l) = Some [VFunc f]
    ∧ funcs_of w3 (VRef l) = Some [VFunc g].
Proof.
  intros Hhook Hkw.
  destruct (command_dict hook kwargs w Hhook Hkw)
    as (p & w1 & pd0 & Hcmd & _ & Hreg1 & Hp1 & _ & Hdef).
  destruct (wrapper_dict p pd0 f w1 Hp1)
    as (w2 & fl2 & pd2 & Hrun2 & Hreg2 & Hp2 & Hf2 & Hfl2 & Hh2 & _).
  destruct (wrapper_dict p pd2 g w2 Hp2)
    as (w3 & fl3 & pd3 & Hrun3 & Hreg3 & Hp3 & Hf3 & Hfl3 & Hh3 & _).
  exists p, w1, w2, w3. repeat split; try done.
  - rewrite Hreg3, Hreg2, Hreg1. by rewrite <- app_assoc.
  - rewrite (descriptor_field_dict _ _ _ _ Hp3), Hh3, Hh2. simpl.
    by rewrite Hdef.
  - by apply (funcs_of_dict _ _ _ _ _ Hp2 Hf2).
  - by apply (funcs_of_dict _ _ _ _ _ Hp3 Hf3).
Qed.

Lemma command_closure_shares_its_dict_witness :
  ∃ l w1 w2 w3,
    command VNone ∅ example_world = Ok (Decorator (VRef l)) w1
    ∧ wrapper (VRef l) (Func "ping" 1) w1 = Ok (VFunc (Func "ping" 1)) w2
    ∧ wrapper (VRef l) (Func "pong" 2) w2 = Ok (VFunc (Func "pong" 2)) w3
    ∧ registered w3
      = registered example_world ++ [Registration (VRef l) "PLUGINS";
                                     Registration (VRef l) "PLUGINS"]
    ∧ descriptor_field w3 (VRef l) "hook"
      = Some (VStr (chosen_hook VNone (Func "ping" 1)))
    ∧ funcs_of w2 (VRef l) = Some [VFunc (Func "ping" 1)]
    ∧ funcs_of w3 (VRef l) = Some [VFunc (Func "pong" 2)].
Proof.
  apply (command_closure_shares_its_dict example_world VNone ∅
           (Func "ping" 1) (Func "pong" 2)); [exact I | reflexivity].
Defined.

(** The common end of [command] and [event]: the hook is stored, then the
    keyword options. *)
Lemma store_hook_and_options p hook kwargs w :
  heap w !! p = Some (ODict ∅) →
  ∃ w2,
    (setitem (VRef p) "hook" hook ;;;
     dict_update (VRef p) kwargs ;;;
     ret (Decorator (VRef p))) w = Ok (Decorator (VRef p)) w2
    ∧ registered w2 = registered w
    ∧ heap w2 !! p = Some (ODict (kwargs ∪ {["hook" := hook]})).
Proof.
  intros Hp.
  set (w1 := set_heap (<[p := ODict (<["hook" := hook]> ∅)]> (heap w)) w).
  assert (Hp1 : heap w1 !! p = Some (ODict (<["hook" := hook]> ∅)))
    by (simpl; by rewrite lookup_insert_eq).
  eexists. split; [|split].
  - rewrite (bind_Ok _ _ w tt w1) by (by apply setitem_run).
    by rewrite (bind_Ok _ _ _ _ _ (dict_update_run _ _ kwargs _ Hp1)).
  - done.
  - simpl. rewrite lookup_insert_eq. by rewrite insert_empty.
Qed.

Lemma command_function_options f0 kwargs w :
  kwargs ≠ ∅ →
  ∃ p w1,
    command (VFunc f0) kwargs w = Ok (Decorator (VRef p)) w1
    ∧ heap w !! p = None
    ∧ registered w1 = registered w
    ∧ heap w1 !! p = Some (ODict (kwargs ∪ {["hook" := VFunc f0]})).
Proof.
  intros Hne.
  pose proof (fresh_not_allocated (heap w)) as Hfresh.
  set (p := fresh (dom (heap w))) in *.
  set (w1 := set_heap (<[p := ODict ∅]> (heap w)) w).
  assert (Hp1 : heap w1 !! p = Some (ODict ∅))
    by (simpl; by rewrite lookup_insert_eq).
  destruct (store_hook_and_options p (VFunc f0) kwargs w1 Hp1)
    as (w2 & Hrun & Hreg & Hp2).
  exists p, w2. split; [|done].
  unfold command. rewrite (bind_Ok _ _ w (VRef p) w1) by done.
  rewrite bool_decide_eq_false_2 by done. cbn [negb]. exact Hrun.
Qed.

(** X5.  [command] called with a function and keyword options does not take
    the bare path: the function object becomes the hook, it is not
    registered, and the function the closure is then applied to is
    registered under that hook, which is not a string. *)
Theorem command_function_with_options (w : world) (f0 g : function)
    (kwargs : gmap string pyval) :
  kwargs ≠ ∅ → kwargs !! "hook" = None →
  ∃ w' l,
    decorate (VFunc f0) kwargs g w = Ok (VFunc g) w'
    ∧ registered w' = registered w ++ [Registration (VRef l) "PLUGINS"]
    ∧ descriptor_field w' (VRef l) "hook" = Some (VFunc f0)
    ∧ funcs_of w' (VRef l) = Some [VFunc g]
    ∧ hook_error (descriptor_field w' (VRef l) "hook") = Some TypeError.
Proof.
  intros Hne Hkw.
  destruct (command_function_options f0 kwargs w Hne)
    as (p & w1 & Hcmd & _ & Hreg1 & Hp1).
  destruct (wrapper_dict p _ g w1 Hp1)
    as (w' & fl & pd' & Hrun & Hreg & Hp' & Hf & Hfl & Hh & _).
  assert (Hhook : descriptor_field w' (VRef p) "hook" = Some (VFunc f0)).
  { rewrite (descriptor_field_dict _ _ _ _ Hp'), Hh.
    rewrite lookup_union_r by done. by rewrite lookup_singleton_eq. }
  exists w', p. split; [|split; [|split; [|split]]].
  - unfold decorate. by rewrite (bind_Ok _ _ _ _ _ Hcmd).
  - by rewrite Hreg, Hreg1.
  - done.
  - by apply (funcs_of_dict _ _ _ _ _ Hp' Hf).
  - by rewrite Hhook.
Qed.

Lemma command_function_with_options_witness :
  ∃ w' l,
    decorate (VFunc (Func "ping" 1)) (<["threaded" := VBool true]> ∅)
             (Func "pong" 2) example_world
    = Ok (VFunc (Func "pong" 2)) w'
    ∧ registered w'
      = registered example_world ++ [Registration (VRef l) "PLUGINS"]
    ∧ descriptor_field w' (VRef l) "hook" = Some (VFunc (Func "ping" 1))
    ∧ funcs_of w' (VRef l) = Some [VFunc (Func "pong" 2)]
    ∧ hook_error (descriptor_field w' (VRef l) "hook") = Some TypeError.
Proof.
  apply (command_function_with_options example_world (Func "ping" 1)
           (Func "pong" 2) (<["threaded" := VBool true]> ∅)).
  - intros H. apply (f_equal (λ m : gmap string pyval, m !! "threaded")) in H.
    vm_compute in H. discriminate H.
  - reflexivity.
Defined.

Lemma event_run hook kwargs w :
  ∃ p w1,
    event hook kwargs w = Ok (Decorator (VRef p)) w1
    ∧ heap w !! p = None
    ∧ registered w1 = registered w
    ∧ heap w1 !! p = Some (ODict (kwargs ∪ {["hook" := hook]})).
Proof.
  pose proof (fresh_not_allocated (heap w)) as Hfresh.
  set (p := fresh (dom (heap w))) in *.
  set (w1 := set_heap (<[p := ODict ∅]> (heap w)) w).
  assert (Hp1 : heap w1 !! p = Some (ODict ∅))
    by (simpl; by rewrite lookup_insert_eq).
  destruct (store_hook_and_options p hook kwargs w1 Hp1)
    as (w2 & Hrun & Hreg & Hp2).
  exists p, w2. split; [|done].
  unfold event. by rewrite (bind_Ok _ _ w (VRef p) w1).
Qed.

Lemma event_wrapper_run p pd f w :
  heap w !! p = Some (ODict pd) →
  ∃ w' fl,
    event_wrapper (VRef p) f w = Ok (VFunc f) w'
    ∧ registered w' = registered w ++ [Registration (VRef p) "EVENTS"]
    ∧ heap w' !! p = Some (ODict (<["funcs" := VRef fl]> pd))
    ∧ heap w' !! fl = Some (OList [VFunc f]).
Proof.
  intros Hp.
  pose proof (fresh_not_allocated (heap w)) as Hfresh.
  set (fl := fresh (dom (heap w))) in *.
  assert (Hne : p ≠ fl) by congruence.
  set (w1 := set_heap (<[fl := OList [VFunc f]]> (heap w)) w).
  assert (Hp1 : heap w1 !! p = Some (ODict pd))
    by (simpl; by rewrite lookup_insert_ne).
  eexists _, fl. split; [|split; [|split]].
  - unfold event_wrapper. rewrite (bind_Ok _ _ w (VRef fl) w1) by done.
    rewrite (bind_Ok _ _ _ _ _ (setitem_run _ _ "funcs" (VRef fl) _ Hp1)).
    unfold update_plugins, bind, modify, ret. reflexivity.
  - done.
  - simpl. by rewrite lookup_insert_eq.
  - simpl. by rewrite lookup_insert_ne, lookup_insert_eq.
Qed.

(** X1.  [event(hook, ...)] applied to a function registers, in the bucket
    ['EVENTS'], a new dict whose hook is the value given, whatever it is (the
    empty string too: there is no default), whose functions are that one
    function, and which keeps every other keyword option. *)
Theorem event_registers (w : world) (hook : pyval)
    (kwargs : gmap string pyval) (f : function) :
  kwargs !! "hook" = None →
  ∃ w' l,
    decorate_event hook kwargs f w = Ok (VFunc f) w'
    ∧ heap w !! l = None
    ∧ registered w' = registered w ++ [Registration (VRef l) "EVENTS"]
    ∧ descriptor_field w' (VRef l) "hook" = Some hook
    ∧ funcs_of w' (VRef l) = Some [VFunc f]
    ∧ (∀ k, k ≠ "hook" → k ≠ "funcs" →
         descriptor_field w' (VRef l) k = kwargs !! k).
Proof.
  intros Hkw.
  destruct (event_run hook kwargs w) as (p & w1 & Hev & Hnew & Hreg1 & Hp1).
  destruct (event_wrapper_run p _ f w1 Hp1) as (w' & fl & Hrun & Hreg & Hp' & Hfl).
  exists w', p. split; [|split; [done|split; [|split; [|split]]]].
  - unfold decorate_event. by rewrite (bind_Ok _ _ _ _ _ Hev).
  - by rewrite Hreg, Hreg1.
  - rewrite (descriptor_field_dict _ _ _ _ Hp'), lookup_insert_ne by done.
    rewrite lookup_union_r by done. by rewrite lookup_singleton_eq.
  - apply (funcs_of_dict _ _ _ fl _ Hp'); [by rewrite lookup_insert_eq|done].
  - intros k Hk1 Hk2.
    rewrite (descriptor_field_dict _ _ _ _ Hp'), lookup_insert_ne by done.
    rewrite lookup_union_l; [done|]. by apply lookup_singleton_ne.
Qed.

Lemma event_registers_witness :
  ∃ w' l,
    decorate_event (VStr "") (<["threaded" := VBool true]> ∅) (Func "on_join" 3)
                   example_world
    = Ok (VFunc (Func "on_join" 3)) w'
    ∧ heap example_world !! l = None
    ∧ registered w'
      = registered example_world ++ [Registration (VRef l) "EVENTS"]
    ∧ descriptor_field w' (VRef l) "hook" = Some (VStr "")
    ∧ funcs_of w' (VRef l) = Some [VFunc (Func "on_join" 3)]
    ∧ (∀ k, k ≠ "hook" → k ≠ "funcs" →
         descriptor_field w' (VRef l) k
         = (<["threaded" := VBool true]> ∅ : gmap string pyval) !! k).
Proof.
  apply (event_registers example_world (VStr "")
           (<["threaded" := VBool true]> ∅) (Func "on_join" 3)).
  reflexivity.
Defined.

(** X2.  [event] itself never calls [update_plugins], whatever the hook is:
    used bare above [def f], so that [f] arrives as the hook, it stores [f]
    as the hook of a new dict, returns the closure over that dict, and
    registers nothing; no function is bound to the dict. *)
Theorem event_alone_registers_nothing (w : world) (hook : pyval)
    (kwargs : gmap string pyval) :
  kwargs !! "hook" = None →
  ∃ l w1,
    event hook kwargs w = Ok (Decorator (VRef l)) w1
    ∧ heap w !! l = None
    ∧ registered w1 = registered w
    ∧ descriptor_field w1 (VRef l) "hook" = Some hook
    ∧ descriptor_field w1 (VRef l) "funcs" = kwargs !! "funcs".
Proof.
  intros Hkw.
  destruct (event_run hook kwargs w) as (p & w1 & Hev & Hnew & Hreg1 & Hp1).
  exists p, w1. split; [done|]. split; [done|]. split; [done|].
  rewrite !(descriptor_field_dict _ _ _ _ Hp1). split.
  - rewrite lookup_union_r by done. by rewrite lookup_singleton_eq.
  - rewrite lookup_union_l; [done|]. by apply lookup_singleton_ne.
Qed.

Lemma event_alone_registers_nothing_witness :
  ∃ l w1,
    event (VFunc (Func "on_join" 3)) ∅ example_world = Ok (Decorator (VRef l)) w1
    ∧ heap example_world !! l = None
    ∧ registered w1 = registered example_world
    ∧ descriptor_field w1 (VRef l) "hook" = Some (VFunc (Func "on_join" 3))
    ∧ descriptor_field w1 (VRef l) "funcs"
      = (∅ : gmap string pyval) !! "funcs".
Proof.
  apply (event_alone_registers_nothing example_world
           (VFunc (Func "on_join" 3)) ∅).
  reflexivity.
Defined.

(** ** The dispatcher: errors and what it leaves alone *)

Lemma while_raise fuel cond body w e w1 :
  cond w = Ok true w → body w = Raise e w1 →
  while (S fuel) cond body w = Raise e w1.
Proof.
  intros Hc Hb. simpl. rewrite (bind_Ok _ _ _ _ _ Hc).
  by rewrite (bind_Raise _ _ _ _ _ Hb).
Qed.

Lemma fresh_test_true w d :
  live_context w = Some d → fresh_context w = true →
  (stale <- context_stale ;;
   s <- truth stale ;;
   if negb s then truth (default VNone (d !! "args")) else ret false) w
  = Ok true w.
Proof.
  intros Hlive Hfresh. rewrite (fresh_test_run _ _ _ Hlive).
  by rewrite <- (fresh_context_eq _ _ Hlive), Hfresh.
Qed.

(** X6.  A fresh context whose [message] is missing, [None] or anything but
    a string makes the cycle raise [AttributeError] at
    [message.startswith]: nothing is enqueued and the context is left as it
    was, not marked stale. *)
Theorem dispatch_raises_without_message (w : world) (d : gmap string pyval)
    (fuel n : nat) :
  live_context w = Some d → fresh_context w = true →
  match default VNone (d !! "message") with VStr _ => False | _ => True end →
  cycle (CMD_PREFIX w) (S fuel) w = Raise AttributeError w
  ∧ _parse_input (S fuel) (S n) w = Raise AttributeError w.
Proof.
  intros Hlive Hfresh Hmsg.
  destruct (live_context_ref _ _ Hlive) as (c & Hctx & Hc).
  assert (Hcycle : ∀ prefix, cycle prefix (S fuel) w = Raise AttributeError w).
  { intros prefix. rewrite (cycle_unfold _ _ _ _ _ Hctx Hc).
    apply while_raise; [by apply fresh_test_true|].
    unfold matching. apply bind_Raise.
    by destruct (default VNone (d !! "message")). }
  split; [done|]. unfold _parse_input.
  rewrite (bind_Ok _ _ w (CMD_PREFIX w) w) by done.
  simpl. by rewrite (bind_Raise _ _ _ _ _ (Hcycle _)).
Qed.

Lemma dispatch_raises_without_message_witness :
  cycle (CMD_PREFIX no_message_world) 1 no_message_world
  = Raise AttributeError no_message_world
  ∧ _parse_input 1 3 no_message_world = Raise AttributeError no_message_world.
Proof.
  apply (dispatch_raises_without_message no_message_world no_message_context
           0 2); [reflexivity | reflexivity | exact I].
Defined.

(** [str.isupper], spelled out. *)
Lemma str_isupper_from_spec cased s :
  str_isupper_from cased s = true
  ↔ Forall (λ c, is_lower c = false) (chars s)
    ∧ (cased = true ∨ Exists (λ c, is_upper c = true) (chars s)).
Proof.
  revert cased; induction s as [|c s IH]; intros cased; simpl.
  - split; [intros ->; split; [constructor | by left]|].
    intros [_ [H|H]]; [done | by apply Exists_nil in H].
  - destruct (is_lower c) eqn:Hl.
    + split; [done|]. intros [H _]. apply Forall_cons in H as [H _]. congruence.
    + rewrite IH. split.
      * intros [Hall Hex]. split; [by constructor|].
        destruct Hex as [Hex|Hex]; [|right; by apply Exists_cons_tl].
        apply orb_true_iff in Hex as [Hex|Hex]; [by left|].
        right. by apply Exists_cons_hd.
      * intros [Hall Hex]. apply Forall_cons in Hall as [_ Hall].
        split; [done|]. destruct Hex as [->|Hex]; [by left|].
        apply Exists_cons in Hex as [Hex|Hex]; [|by right].
        left. rewrite Hex. apply orb_true_r.
Qed.

Lemma str_isupper_spec s :
  str_isupper s = true
  ↔ Forall (λ c, is_lower c = false) (chars s)
    ∧ Exists (λ c, is_upper c = true) (chars s).
Proof.
  unfold str_isupper. rewrite str_isupper_from_spec.
  split; [intros [H [?|?]]; done | intros [? ?]; auto].
Qed.

(** X8.  A command with no upper-case letter (a numeric reply such as
    [001]) or with a lower-case letter is not an event for the dispatcher:
    the cycle over such a fresh context offers the plugins only, whatever is
    registered in [EVENTS]. *)
Theorem no_event_without_upper_case (w : world) (d : gmap string pyval)
    (c : string) (fuel : nat) :
  live_context w = Some d → fresh_context w = true →
  typed_context w = true → registry_ok w = true →
  d !! "command" = Some (VStr c) →
  Forall (λ ch, is_upper ch = false) (chars c)
  ∨ Exists (λ ch, is_lower ch = true) (chars c) →
  ∃ w', cycle (CMD_PREFIX w) (S (S fuel)) w = Ok 1%nat w'
        ∧ enqueued w'
          = enqueued w ++ plugin_calls w (default VNone (d !! "message")).
Proof.
  intros Hlive Hfresh Htyped Hreg Hcmd Hc.
  destruct (cycle_fresh w d Hlive Hfresh Htyped Hreg) as (w' & Hrun & Hd).
  exists w'. split; [done|]. rewrite (dp_enqueued _ _ _ Hd), Hcmd.
  unfold event_calls. simpl.
  assert (str_isupper c = false) as ->; [|by rewrite app_nil_r].
  apply not_true_iff_false. rewrite str_isupper_spec. intros [Hall Hex].
  destruct Hc as [Hnone|Hsome].
  - apply Exists_exists in Hex as (ch & Hin & Hup).
    rewrite Forall_forall in Hnone. specialize (Hnone _ Hin). congruence.
  - apply Exists_exists in Hsome as (ch & Hin & Hlow).
    rewrite Forall_forall in Hall. specialize (Hall _ Hin). congruence.
Qed.

Lemma no_event_without_upper_case_witness :
  ∃ w', cycle (CMD_PREFIX numeric_world) 2 numeric_world = Ok 1%nat w'
        ∧ enqueued w'
          = enqueued numeric_world
            ++ plugin_calls numeric_world
                 (default VNone (numeric_context !! "message")).
Proof.
  apply (no_event_without_upper_case numeric_world numeric_context "001" 0);
    try reflexivity.
  left. repeat constructor.
Defined.

Lemma offered_registered w d p :
  p ∈ offered w d → p ∈ PLUGINS w ++ EVENTS w.
Proof.
  unfold offered. rewrite !elem_of_app. intros [H|H]; [left|right].
  - by destruct (is_command w _); [|apply elem_of_nil in H].
  - by destruct (is_event _); [|apply elem_of_nil in H].
Qed.

(** X9.  A cycle over a fresh context sends nothing and registers nothing;
    it leaves the configuration, the class and the reference to the context
    as they are, changes no key of the context but ['stale'], and changes no
    object other than the context and the registered descriptors (the
    [args] list, for one, is untouched). *)
Theorem dispatch_leaves_the_rest (w : world) (d : gmap string pyval)
    (fuel : nat) :
  live_context w = Some d → fresh_context w = true →
  typed_context w = true → registry_ok w = true →
  ∃ w' d',
    cycle (CMD_PREFIX w) (S (S fuel)) w = Ok 1%nat w'
    ∧ sent w' = sent w ∧ registered w' = registered w
    ∧ PLUGINS w' = PLUGINS w ∧ EVENTS w' = EVENTS w
    ∧ CMD_PREFIX w' = CMD_PREFIX w ∧ Bot_instance w' = Bot_instance w
    ∧ irc_context w' = irc_context w
    ∧ live_context w' = Some d'
    ∧ (∀ k, k ≠ "stale" → d' !! k = d !! k)
    ∧ (∀ l o, heap w !! l = Some o → VRef l ≠ irc_context w →
         VRef l ∉ PLUGINS w ++ EVENTS w → heap w' !! l = Some o).
Proof.
  intros Hlive Hfresh Htyped Hreg.
  destruct (cycle_fresh w d Hlive Hfresh Htyped Hreg) as (w' & Hrun & []).
  exists w', (<["stale" := VBool true]> d). repeat split; try done.
  - intros k Hk. by rewrite lookup_insert_ne.
  - intros l o Hl Hne Hin. apply dp_keep0; [done | done |].
    intros Hoff. by apply Hin, (offered_registered w d).
Qed.

Lemma dispatch_leaves_the_rest_witness :
  ∃ w' d',
    cycle (CMD_PREFIX example_world) 2 example_world = Ok 1%nat w'
    ∧ sent w' = sent example_world ∧ registered w' = registered example_world
    ∧ PLUGINS w' = PLUGINS example_world ∧ EVENTS w' = EVENTS example_world
    ∧ CMD_PREFIX w' = CMD_PREFIX example_world
    ∧ Bot_instance w' = Bot_instance example_world
    ∧ irc_context w' = irc_context example_world
    ∧ live_context w' = Some d'
    ∧ (∀ k, k ≠ "stale" → d' !! k = example_context !! k)
    ∧ (∀ l o, heap example_world !! l = Some o →
         VRef l ≠ irc_context example_world →
         VRef l ∉ PLUGINS example_world ++ EVENTS example_world →
         heap w' !! l = Some o).
Proof.
  apply (dispatch_leaves_the_rest example_world example_context 0);
    reflexivity.
Defined.

Lemma prefix_empty m : String.prefix "" m = true.
Proof. by destruct m. Qed.

(** X17.  With an empty [CMD_PREFIX] every message starts with the prefix:
    each fresh line offers every registered plugin, with its bare hook. *)
Theorem empty_prefix_offers_every_line (w : world) (d : gmap string pyval)
    (fuel : nat) :
  live_context w = Some d → fresh_context w = true →
  typed_context w = true → registry_ok w = true →
  CMD_PREFIX w = "" →
  ∃ w', cycle "" (S (S fuel)) w = Ok 1%nat w'
        ∧ enqueued w'
          = enqueued w
            ++ map (λ p, Call p (default VNone (hook_of w p))
                              (default VNone (d !! "message"))) (PLUGINS w)
            ++ event_calls w (default VNone (d !! "command")).
Proof.
  intros Hlive Hfresh Htyped Hreg Hprefix.
  destruct (cycle_fresh w d Hlive Hfresh Htyped Hreg) as (w' & Hrun & Hd).
  exists w'. rewrite <- Hprefix at 1. split; [done|].
  rewrite (dp_enqueued _ _ _ Hd). f_equal. f_equal.
  unfold typed_context in Htyped. rewrite Hlive in Htyped.
  destruct (d !! "message") as [[| |m| |]|] eqn:Hm; try done.
  unfold plugin_calls, is_command. simpl default.
  rewrite Hprefix, prefix_empty.
  apply andb_true_iff in Hreg as [Hps _].
  apply map_ext_Forall, Forall_forall. intros p Hp.
  rewrite forallb_forall in Hps.
  specialize (Hps p (proj1 (list_elem_of_In _ _) Hp)).
  unfold plugin_ok in Hps. apply andb_true_iff in Hps as [_ Hh].
  unfold plugin_call. rewrite Hprefix.
  by destruct (hook_of w p) as [[| |h| |]|].
Qed.

Lemma empty_prefix_offers_every_line_witness :
  ∃ w', cycle "" 2 no_prefix_world = Ok 1%nat w'
        ∧ enqueued w'
          = enqueued no_prefix_world
            ++ map (λ p, Call p (default VNone (hook_of no_prefix_world p))
                              (default VNone (example_context !! "message")))
                   (PLUGINS no_prefix_world)
            ++ event_calls no_prefix_world
                 (default VNone (example_context !! "command")).
Proof.
  apply (empty_prefix_offers_every_line no_prefix_world example_context 0);
    reflexivity.
Defined.

Lemma for_each_app {A} (l1 l2 : list A) (f : A → M unit) w w1 :
  for_each l1 f w = Ok tt w1 →
  for_each (l1 ++ l2) f w = for_each l2 f w1.
Proof.
  revert w; induction l1 as [|x l1 IH]; intros w Hrun; simpl in *.
  - by injection Hrun as ->.
  - unfold bind in *. destruct (f x w) as [[] wx| |]; try done. by apply IH.
Qed.

(** One pass of the plugin loop over a descriptor whose hook is missing or
    is not a string: the snapshot is stored, then the exception is raised. *)
Lemma offer_raise d c prefix text l pd e w :
  irc_context w = VRef c → heap w !! c = Some (ODict d) →
  heap w !! l = Some (ODict pd) → l ≠ c →
  hook_error (pd !! "hook") = Some e →
  ∃ w', offer (str_add prefix) text (VRef l) w = Raise e w'
        ∧ enqueued w' = enqueued w
        ∧ live_context w' = Some d
        ∧ snapshot_of w' (VRef l) = Some d.
Proof.
  intros Hctx Hc Hl Hne Herr.
  pose proof (fresh_not_allocated (heap w)) as Hfresh.
  set (s := fresh (dom (heap w))) in *.
  assert (Hls : l ≠ s) by congruence.
  assert (Hcs : c ≠ s) by congruence.
  set (w1 := set_heap (<[s := ODict d]> (heap w)) w).
  set (w2 := set_heap (<[l := ODict (<["context" := VRef s]> pd)]> (heap w1)) w1).
  assert (Hl1 : heap w1 !! l = Some (ODict pd))
    by (simpl; by rewrite lookup_insert_ne).
  assert (Hl2 : heap w2 !! l = Some (ODict (<["context" := VRef s]> pd)))
    by (simpl; by rewrite lookup_insert_eq).
  exists w2. split; [|split; [done|split]].
  - unfold offer.
    rewrite (bind_Ok _ _ w (irc_context w) w) by done. rewrite Hctx.
    rewrite (bind_Ok _ _ w (VRef s) w1) by (by apply dict_copy_run).
    rewrite (bind_Ok _ _ w1 tt w2) by (by apply setitem_run).
    destruct (pd !! "hook") as [hv|] eqn:Hh.
    + rewrite (bind_Ok _ _ w2 hv w2)
        by (apply (getitem_run _ _ _ _ _ Hl2); by rewrite lookup_insert_ne).
      apply bind_Raise.
      destruct hv; simpl in Herr; try done; by injection Herr as <-.
    + injection Herr as <-. apply bind_Raise.
      apply (getitem_missing _ _ _ _ Hl2). by rewrite lookup_insert_ne.
  - unfold live_context, dict_at. simpl. rewrite Hctx.
    by rewrite !lookup_insert_ne, Hc.
  - unfold snapshot_of, snapshot_ref, dict_at. rewrite Hl2. simpl.
    rewrite lookup_insert_eq. simpl.
    by rewrite lookup_insert_ne, lookup_insert_eq.
Qed.

(** X7.  When the message starts with the prefix and a registered plugin has
    no ['hook'] (or one that is not a string), the cycle raises [KeyError]
    (or [TypeError]) in the middle of the plugin loop: the plugins before it
    have been handed to [enqueue_plugin], the faulty descriptor already
    carries its snapshot, and the context is left fresh, not marked
    stale. *)
Theorem dispatch_raises_on_bad_hook (w : world) (d pd : gmap string pyval)
    (m : string) (ps1 ps2 : list pyval) (p : pyval) (e : exn) (fuel : nat) :
  live_context w = Some d → fresh_context w = true →
  d !! "message" = Some (VStr m) → String.prefix (CMD_PREFIX w) m = true →
  PLUGINS w = ps1 ++ p :: ps2 → forallb (plugin_ok w) ps1 = true →
  p ≠ irc_context w → dict_at (heap w) p = Some pd →
  hook_error (pd !! "hook") = Some e →
  ∃ w', cycle (CMD_PREFIX w) (S fuel) w = Raise e w'
        ∧ enqueued w' = enqueued w ++ map (plugin_call w (VStr m)) ps1
        ∧ live_context w' = Some d
        ∧ snapshot_of w' p = Some d.
Proof.
  intros Hlive Hfresh Hm Hpre Hps Hok Hne Hp Herr.
  destruct (live_context_ref _ _ Hlive) as (c & Hctx & Hc).
  destruct p as [| | | |l]; try done. unfold dict_at in Hp.
  destruct (heap w !! l) as [[pd0| |]|] eqn:Hl; try done.
  injection Hp as ->.
  assert (Hlc : l ≠ c) by congruence.
  pose proof (plugins_offerable w c ps1 Hctx Hok) as Hoff.
  destruct (for_each_offer d c (str_add (CMD_PREFIX w))
              (prefixed (CMD_PREFIX w)) (VStr m) ps1 w Hctx Hc Hoff)
    as (w1 & Hrun1 & Hpost1).
  assert (Hc1 : heap w1 !! c = Some (ODict d)).
  { apply (op_keep _ _ _ _ _ Hpost1); [done|]. intros Hin.
    rewrite Forall_forall in Hoff.
    by destruct (Hoff _ Hin) as (? & ? & ? & [= <-] & ? & _). }
  destruct (offers_post_hook _ _ _ _ _ _ _ Hpost1 Hl) as (pd1 & Hl1 & Hk).
  destruct (offer_raise d c (CMD_PREFIX w) (VStr m) l pd1 e w1)
    as (w2 & Hrun2 & Henq2 & Hlive2 & Hsnap2); try done.
  { by rewrite (op_context _ _ _ _ _ Hpost1). }
  { by rewrite Hk. }
  exists w2. split; [|split; [|done]].
  - rewrite (cycle_unfold _ _ _ _ _ Hctx Hc), Hm.
    apply while_raise; [by apply fresh_test_true|].
    unfold matching.
    change (startswith (VStr m) (CMD_PREFIX w))
      with (@ret bool (String.prefix (CMD_PREFIX w) m)).
    rewrite (bind_Ok _ _ w (String.prefix (CMD_PREFIX w) m) w) by done.
    rewrite Hpre. apply bind_Raise.
    rewrite offer_plugins_offer.
    rewrite (bind_Ok _ _ w (PLUGINS w) w) by done.
    rewrite Hps, (for_each_app _ _ _ _ _ Hrun1). simpl.
    by apply bind_Raise.
  - rewrite Henq2, (op_enqueued _ _ _ _ _ Hpost1). reflexivity.
Qed.

Lemma dispatch_raises_on_bad_hook_witness :
  ∃ w', cycle (CMD_PREFIX broken_registry_world) 1 broken_registry_world
        = Raise KeyError w'
        ∧ enqueued w'
          = enqueued broken_registry_world
            ++ map (plugin_call broken_registry_world (VStr ".ping x"))
                   [VRef 2%nat]
        ∧ live_context w' = Some example_context
        ∧ snapshot_of w' (VRef 4%nat) = Some example_context.
Proof.
  apply (dispatch_raises_on_bad_hook broken_registry_world example_context ∅
           ".ping x" [VRef 2%nat] [] (VRef 4%nat) KeyError 0);
    try reflexivity.
  discriminate.
Defined.

(** ** One snapshot object per descriptor *)

Lemma snapshot_ref_dict w l pd :
  heap w !! l = Some (ODict pd) → snapshot_ref w (VRef l) = pd !! "context".
Proof. unfold snapshot_ref, dict_at. by intros ->. Qed.

(** After two runs of [offer] in a row, the snapshot of a descriptor is
    either new in the second run, or the one the first run gave it. *)
Lemma snapshot_new_or_old d ps1 ps2 c1 c2 w w1 w2 l pd :
  offers_post d ps1 c1 w w1 → offers_post d ps2 c2 w1 w2 →
  heap w !! l = Some (ODict pd) → VRef l ∈ ps1 ++ ps2 →
  (VRef l ∈ ps2
   ∧ (∃ s, snapshot_ref w2 (VRef l) = Some (VRef s) ∧ heap w1 !! s = None))
  ∨ ((VRef l ∉ ps2) ∧ (VRef l ∈ ps1)
     ∧ snapshot_ref w2 (VRef l) = snapshot_ref w1 (VRef l)
     ∧ (∃ s, snapshot_ref w1 (VRef l) = Some (VRef s)
             ∧ is_Some (heap w1 !! s))).
Proof.
  intros Hpost1 Hpost2 Hl Hin.
  destruct (decide (VRef l ∈ ps2)) as [H2|H2].
  - left. split; [done|].
    destruct (offers_post_hook _ _ _ _ _ _ _ Hpost1 Hl) as (pd1 & Hl1 & _).
    destruct (op_desc _ _ _ _ _ Hpost2 l pd1 Hl1 H2) as (s & Hl2 & _ & Hs).
    exists s. split; [|done].
    rewrite (snapshot_ref_dict _ _ _ Hl2). by rewrite lookup_insert_eq.
  - right. assert (H1 : VRef l ∈ ps1) by (rewrite elem_of_app in Hin; tauto).
    destruct (op_desc _ _ _ _ _ Hpost1 l pd Hl H1) as (s & Hl1 & Hs1 & _).
    pose proof (op_keep _ _ _ _ _ Hpost2 l _ Hl1 H2) as Hl2.
    split; [done|]. split; [done|].
    rewrite (snapshot_ref_dict _ _ _ Hl2), (snapshot_ref_dict _ _ _ Hl1).
    split; [done|]. exists s. rewrite lookup_insert_eq. eauto.
Qed.

Lemma offers_apart_app d ps1 ps2 c1 c2 w w1 w2 :
  offers_post d ps1 c1 w w1 → offers_post d ps2 c2 w1 w2 →
  (∀ p, p ∈ ps1 ++ ps2 → ∃ l pd, p = VRef l ∧ heap w !! l = Some (ODict pd)) →
  snapshots_apart ps1 w1 → snapshots_apart ps2 w2 →
  snapshots_apart (ps1 ++ ps2) w2.
Proof.
  intros Hpost1 Hpost2 Hdict Ha1 Ha2 p q s0 Hp Hq Hne Hsp Hsq.
  destruct (Hdict p Hp) as (lp & pdp & -> & Hlp).
  destruct (Hdict q Hq) as (lq & pdq & -> & Hlq).
  destruct (snapshot_new_or_old _ _ _ _ _ _ _ _ _ _ Hpost1 Hpost2 Hlp Hp)
    as [(Hp2 & sp & Hrp & Hnp) | (Hp2 & Hp1 & Hep & sp & Hrp & Hop)];
  destruct (snapshot_new_or_old _ _ _ _ _ _ _ _ _ _ Hpost1 Hpost2 Hlq Hq)
    as [(Hq2 & sq & Hrq & Hnq) | (Hq2 & Hq1 & Heq & sq & Hrq & Hoq)].
  - by apply (Ha2 _ _ s0 Hp2 Hq2 Hne).
  - rewrite Heq, Hrq in Hsq. rewrite Hrp in Hsp.
    destruct Hoq as [? Hoq]. congruence.
  - rewrite Hep, Hrp in Hsp. rewrite Hrq in Hsq.
    destruct Hop as [? Hop]. congruence.
  - rewrite Hep in Hsp. rewrite Heq in Hsq.
    by apply (Ha1 _ _ s0 Hp1 Hq1 Hne).
Qed.

Lemma offerable_dict c mk f w ps :
  Forall (offerable c mk f w) ps →
  ∀ p, p ∈ ps → ∃ l pd, p = VRef l ∧ heap w !! l = Some (ODict pd).
Proof.
  intros Hall p Hp. rewrite Forall_forall in Hall.
  destruct (Hall p Hp) as (l & pd & ? & -> & ? & ? & _). eauto.
Qed.

Lemma for_each_offer_apart d c mk f text ps :
  ∀ w w', irc_context w = VRef c → heap w !! c = Some (ODict d) →
  Forall (offerable c mk f w) ps →
  for_each ps (offer mk text) w = Ok tt w' →
  snapshots_apart ps w'.
Proof.
  induction ps as [|p ps IH]; intros w w' Hctx Hc Hall Hrun.
  - intros ? ? ? Hin. by apply elem_of_nil in Hin.
  - pose proof (offerable_dict _ _ _ _ _ Hall) as Hdict.
    apply Forall_cons in Hall as [Hp Hall].
    destruct Hp as (l & pd & hv & -> & Hne & Hl & Hh & Hmk).
    destruct (offer_run d c mk (f hv) text l pd hv w) as (w1 & Hrun1 & Hpost1);
      try done.
    assert (Hall1 : Forall (offerable c mk f w1) ps).
    { eapply Forall_impl; [exact Hall|]. intros p' Hp'.
      by apply (offerable_post _ _ _ _ _ _ _ _ _ Hpost1). }
    assert (Hctx1 : irc_context w1 = VRef c)
      by (by rewrite (op_context _ _ _ _ _ Hpost1)).
    assert (Hc1 : heap w1 !! c = Some (ODict d)).
    { apply (op_keep _ _ _ _ _ Hpost1); [done|].
      intros Hin. apply list_elem_of_singleton in Hin. congruence. }
    simpl in Hrun. rewrite (bind_Ok _ _ _ _ _ Hrun1) in Hrun.
    destruct (for_each_offer d c mk f text ps w1 Hctx1 Hc1 Hall1)
      as (w'' & Hrun'' & Hpost').
    rewrite Hrun in Hrun''. injection Hrun'' as <-.
    apply (offers_apart_app d [VRef l] ps _ _ w w1 w' Hpost1 Hpost');
      [done | | by eapply IH].
    intros p q s Hp Hq Hpq.
    apply list_elem_of_singleton in Hp, Hq. congruence.
Qed.

Lemma snapshot_ref_other w c o p :
  p ≠ VRef c →
  snapshot_ref (set_heap (<[c := o]> (heap w)) w) p = snapshot_ref w p.
Proof.
  intros Hne. unfold snapshot_ref, dict_at. destruct p as [| | | |l]; try done.
  simpl. rewrite lookup_insert_ne; [done|congruence].
Qed.

(** The body of the inner [while], with what it does to the snapshots. *)
Lemma matching_apart d c m w :
  irc_context w = VRef c → heap w !! c = Some (ODict d) →
  d !! "message" = Some (VStr m) →
  match default VNone (d !! "command") with
  | VNone | VStr _ => True
  | _ => False
  end →
  registry_ok w = true →
  ∃ w', matching (CMD_PREFIX w) (default VNone (d !! "command")) (VStr m) w
        = Ok tt w'
        ∧ dispatched d w w'
        ∧ snapshots_apart (offered w d) w'.
Proof.
  intros Hctx Hc Hm Hcmd Hreg.
  destruct (matching_run d c m w Hctx Hc Hm Hcmd Hreg) as (w' & Hrun & Hd).
  exists w'. split; [done|]. split; [done|].
  apply andb_true_iff in Hreg as [Hps Hes].
  set (command := default VNone (d !! "command")) in *.
  pose proof (plugins_offerable w c _ Hctx Hps) as Hoffp.
  pose proof (events_offerable w c _ Hctx Hes) as Hoffe.
  destruct (offer_plugins_run d c m w Hctx Hc Hps) as (w1 & Hrun1 & Hpost1).
  assert (Hctx1 : irc_context w1 = VRef c)
    by (by rewrite (op_context _ _ _ _ _ Hpost1)).
  assert (Hc1 : heap w1 !! c = Some (ODict d)).
  { apply (op_keep _ _ _ _ _ Hpost1); [done|]. intros Hin.
    assert (Hin' : VRef c ∈ PLUGINS w)
      by (destruct (is_command w (VStr m)); [done|by apply elem_of_nil in Hin]).
    rewrite Forall_forall in Hoffp.
    by destruct (Hoffp _ Hin') as (? & ? & ? & [= <-] & ? & _). }
  assert (Hoffe1 : Forall (offerable c ret id w1) (EVENTS w)).
  { eapply Forall_impl; [exact Hoffe|]. intros e He.
    by apply (offerable_post _ _ _ _ _ _ _ _ _ Hpost1). }
  destruct (offer_events_run d c command w w1) as (w2 & Hrun2 & Hpost2);
    try done.
  { apply (op_events _ _ _ _ _ Hpost1). }
  { rewrite (op_events _ _ _ _ _ Hpost1).
    eapply Forall_impl; [exact Hoffe|]. intros e He.
    by apply (offerable_post _ _ _ _ _ _ _ _ _ Hpost1). }
  assert (Hc2 : heap w2 !! c = Some (ODict d)).
  { apply (op_keep _ _ _ _ _ Hpost2); [done|]. intros Hin.
    assert (Hin' : VRef c ∈ EVENTS w)
      by (destruct (is_event command); [done|by apply elem_of_nil in Hin]).
    rewrite Forall_forall in Hoffe.
    by destruct (Hoffe _ Hin') as (? & ? & ? & [= <-] & ? & _). }
  assert (Hctx2 : irc_context w2 = VRef c)
    by (by rewrite (op_context _ _ _ _ _ Hpost2)).
  (* the world the body ends in *)
  assert (Hw' : w' = set_heap (<[c := ODict (<["stale" := VBool true]> d)]>
                                 (heap w2)) w2).
  { unfold matching in Hrun.
    change (startswith (VStr m) (CMD_PREFIX w))
      with (@ret bool (is_command w (VStr m))) in Hrun.
    rewrite (bind_Ok _ _ w (is_command w (VStr m)) w) in Hrun by done.
    rewrite (bind_Ok _ _ w tt w1) in Hrun by done.
    rewrite event_test_run in Hrun by done.
    rewrite (bind_Ok _ _ w1 tt w2) in Hrun by done.
    rewrite (bind_Ok _ _ w2 (irc_context w2) w2) in Hrun by done.
    rewrite Hctx2, (setitem_run _ _ _ _ _ Hc2) in Hrun.
    by injection Hrun. }
  (* the two loops, each on its own *)
  assert (Ha1 : snapshots_apart
                  (if is_command w (VStr m) then PLUGINS w else []) w1).
  { destruct (is_command w (VStr m)).
    - rewrite offer_plugins_offer in Hrun1.
      rewrite (bind_Ok _ _ w (PLUGINS w) w) in Hrun1 by done.
      apply (for_each_offer_apart d c _ _ _ _ w w1 Hctx Hc Hoffp Hrun1).
    - intros ? ? ? Hin. by apply elem_of_nil in Hin. }
  assert (Ha2 : snapshots_apart (if is_event command then EVENTS w else []) w2).
  { destruct (is_event command).
    - rewrite offer_events_offer in Hrun2.
      rewrite (bind_Ok _ _ w1 (EVENTS w1) w1) in Hrun2 by done.
      rewrite (op_events _ _ _ _ _ Hpost1) in Hrun2.
      apply (for_each_offer_apart d c _ _ _ _ w1 w2 Hctx1 Hc1 Hoffe1 Hrun2).
    - intros ? ? ? Hin. by apply elem_of_nil in Hin. }
  assert (Hdict : ∀ p, p ∈ offered w d →
            ∃ l pd, p = VRef l ∧ l ≠ c ∧ heap w !! l = Some (ODict pd)).
  { intros p Hin. apply offered_registered, elem_of_app in Hin as [Hin|Hin].
    - rewrite Forall_forall in Hoffp.
      destruct (Hoffp _ Hin) as (l & pd & ? & -> & ? & ? & _). eauto.
    - rewrite Forall_forall in Hoffe.
      destruct (Hoffe _ Hin) as (l & pd & ? & -> & ? & ? & _). eauto. }
  assert (Ha : snapshots_apart (offered w d) w2).
  { unfold offered. rewrite Hm. simpl default. fold command.
    eapply offers_apart_app; [exact Hpost1 | exact Hpost2 | | done | done].
    intros p Hin.
    destruct (Hdict p) as (l & pd & -> & _ & Hl); [|eauto].
    unfold offered. rewrite Hm. simpl default. by fold command. }
  intros p q s Hp Hq Hne Hsp. subst w'.
  destruct (Hdict p Hp) as (lp & ? & -> & Hlp & _).
  destruct (Hdict q Hq) as (lq & ? & -> & Hlq & _).
  rewrite snapshot_ref_other in Hsp by congruence.
  rewrite snapshot_ref_other by congruence.
  by apply (Ha _ _ s Hp Hq Hne).
Qed.

(** X10.  In one cycle every offered descriptor is given a snapshot dict of
    its own: each is a new object, equal in content to the context, and no
    two different descriptors share one. *)
Theorem one_snapshot_per_descriptor (w : world) (d : gmap string pyval)
    (fuel : nat) :
  live_context w = Some d → fresh_context w = true →
  typed_context w = true → registry_ok w = true →
  ∃ w', cycle (CMD_PREFIX w) (S (S fuel)) w = Ok 1%nat w'
        ∧ (∀ p, p ∈ offered w d →
             ∃ s, snapshot_ref w' p = Some (VRef s) ∧ heap w !! s = None
                  ∧ heap w' !! s = Some (ODict d))
        ∧ (∀ p q s, p ∈ offered w d → q ∈ offered w d → p ≠ q →
             snapshot_ref w' p = Some s → snapshot_ref w' q ≠ Some s).
Proof.
  intros Hlive Hfresh Htyped Hreg.
  destruct (live_context_ref _ _ Hlive) as (c & Hctx & Hc).
  unfold typed_context in Htyped. rewrite Hlive in Htyped.
  destruct (d !! "message") as [[| |m| |]|] eqn:Hm; try done.
  destruct (matching_apart d c m w Hctx Hc Hm) as (w' & Hrun & Hd & Ha);
    [by destruct (default VNone (d !! "command")) | done |].
  exists w'. split; [|split; [|exact Ha]].
  - rewrite (cycle_unfold _ _ _ _ _ Hctx Hc), Hm.
    apply while_once; [by apply fresh_test_true | exact Hrun |].
    rewrite (fresh_test_run _ _ _ (dp_stale _ _ _ Hd)).
    by rewrite lookup_insert_eq.
  - intros p Hp.
    destruct (dp_snapshot _ _ _ Hd p Hp)
      as (l & pd & s & -> & Hl & Hl' & Hs' & Hs & _).
    exists s. rewrite (snapshot_ref_dict _ _ _ Hl').
    by rewrite lookup_insert_eq.
Qed.

Lemma one_snapshot_per_descriptor_witness :
  ∃ w', cycle (CMD_PREFIX example_world) 2 example_world = Ok 1%nat w'
        ∧ (∀ p, p ∈ offered example_world example_context →
             ∃ s, snapshot_ref w' p = Some (VRef s)
                  ∧ heap example_world !! s = None
                  ∧ heap w' !! s = Some (ODict example_context))
        ∧ (∀ p q s, p ∈ offered example_world example_context →
             q ∈ offered example_world example_context → p ≠ q →
             snapshot_ref w' p = Some s → snapshot_ref w' q ≠ Some s).
Proof.
  apply (one_snapshot_per_descriptor example_world example_context 0);
    reflexivity.
Defined.

(** ** [reply]: the shape of the chunks, and its errors *)




(** X13.  A message no longer than the limit, the empty message included,
    goes out as exactly one send carrying the message itself. *)
Theorem reply_short_message (w : world) (l : nat) (d : gmap string pyval)
    (r : pyval) (message : string) (action notice : bool) (line_limit : Z)
    (fuel : nat) :
  heap w !! l = Some (ODict d) → recipient_of d = Some r →
  (1 ≤ line_limit)%Z → (Z.of_nat (String.length message) ≤ line_limit)%Z →
  reply (S fuel) message (VRef l) action notice line_limit w
  = Ok tt (with_sent (sent w ++ [Send r message action notice]) w).
Proof.
  intros Hl Hr HL Hshort.
  destruct (recipient_of_sender _ _ Hr) as (s & Hs).
  rewrite (reply_run _ _ _ _ _ _ _ _ _ Hl Hs), Hr.
  by rewrite handle_long_message_short.
Qed.

Lemma reply_short_message_witness :
  reply 1 "" (VRef 0%nat) false false default_line_limit example_world
  = Ok tt (with_sent (sent example_world
                      ++ [Send (VStr "#c") "" false false]) example_world).
Proof.
  apply (reply_short_message example_world 0 example_context (VStr "#c") ""
           false false default_line_limit 0);
    [reflexivity | reflexivity | by vm_compute | by vm_compute].
Defined.

(** X12.  [reply] finds its recipient before it splits the message, so a
    context without a usable recipient makes it raise with nothing sent,
    whatever the message and the limit are: [KeyError] when ['sender'] is
    missing, or when the sender is not a channel and ['user'] is missing;
    [AttributeError] when the sender is not a string. *)
Theorem reply_raises_without_recipient (w : world) (l : nat)
    (d : gmap string pyval) (message : string) (action notice : bool)
    (line_limit : Z) (fuel : nat) :
  heap w !! l = Some (ODict d) →
  (d !! "sender" = None →
   reply fuel message (VRef l) action notice line_limit w = Raise KeyError w)
  ∧ (∀ v, d !! "sender" = Some v →
       match v with VStr _ => False | _ => True end →
       reply fuel message (VRef l) action notice line_limit w
       = Raise AttributeError w)
  ∧ (∀ s, d !! "sender" = Some (VStr s) → String.prefix "#" s = false →
       d !! "user" = None →
       reply fuel message (VRef l) action notice line_limit w
       = Raise KeyError w).
Proof.
  intros Hl. split; [|split].
  - intros Hs. unfold reply. apply bind_Raise.
    unfold reply_recipient. apply bind_Raise.
    by apply (getitem_missing _ d).
  - intros v Hs Hv. unfold reply. apply bind_Raise.
    unfold reply_recipient.
    rewrite (bind_Ok _ _ _ _ _ (getitem_run _ _ _ _ _ Hl Hs)).
    apply bind_Raise. by destruct v.
  - intros s Hs Hp Hu.
    rewrite (reply_run _ _ _ _ _ _ _ _ _ Hl Hs).
    unfold recipient_of. by rewrite Hs, Hp, Hu.
Qed.

Lemma reply_raises_without_recipient_witness :
  (no_message_context !! "sender" = None →
   reply 0 "hello" (VRef 0%nat) false false 0 no_message_world
   = Raise KeyError no_message_world)
  ∧ (∀ v, no_message_context !! "sender" = Some v →
       match v with VStr _ => False | _ => True end →
       reply 0 "hello" (VRef 0%nat) false false 0 no_message_world
       = Raise AttributeError no_message_world)
  ∧ (∀ s, no_message_context !! "sender" = Some (VStr s) →
       String.prefix "#" s = false →
       no_message_context !! "user" = None →
       reply 0 "hello" (VRef 0%nat) false false 0 no_message_world
       = Raise KeyError no_message_world).
Proof.
  apply (reply_raises_without_recipient no_message_world 0 no_message_context
           "hello" false false 0 0).
  reflexivity.
Defined.

(** ** [Bot(...)]: what [__init__] does on every call *)

Lemma attr_of_inst w l a name :
  heap w !! l = Some (OInst a) → attr_of w (VRef l) name = a !! name.
Proof. unfold attr_of. by intros ->. Qed.

(** [__init__] gives the instance a new [config] and a new [plugin]. *)
Lemma Bot_init_attrs l a w :
  heap w !! l = Some (OInst a) →
  ∃ w' c q,
    Bot_init (VRef l) [] ∅ w = Ok tt w'
    ∧ Bot_instance w' = Bot_instance w
    ∧ attr_of w' (VRef l) "config" = Some (VRef c)
    ∧ attr_of w' (VRef l) "plugin" = Some (VRef q)
    ∧ heap w !! c = None ∧ heap w !! q = None
    ∧ is_Some (heap w' !! c) ∧ is_Some (heap w' !! q).
Proof.
  intros Hl.
  pose proof (fresh_not_allocated (heap w)) as Hf1.
  set (c := fresh (dom (heap w))) in *.
  set (w1 := set_heap (<[c := OInst ∅]> (heap w)) w).
  assert (Hlc : l ≠ c) by congruence.
  assert (Hl1 : heap w1 !! l = Some (OInst a))
    by (simpl; by rewrite lookup_insert_ne).
  set (w2 := set_heap (<[l := OInst (<["config" := VRef c]> a)]> (heap w1)) w1).
  pose proof (fresh_not_allocated (heap w2)) as Hf2.
  set (q := fresh (dom (heap w2))) in *.
  set (w3 := set_heap (<[q := OInst ∅]> (heap w2)) w2).
  assert (Hlq : l ≠ q).
  { assert (heap w2 !! l ≠ None) by (simpl; by rewrite lookup_insert_eq).
    congruence. }
  assert (Hcq : c ≠ q).
  { assert (heap w2 !! c ≠ None)
      by (simpl; by rewrite lookup_insert_ne, lookup_insert_eq).
    congruence. }
  assert (Hl3 : heap w3 !! l = Some (OInst (<["config" := VRef c]> a)))
    by (simpl; by rewrite lookup_insert_ne, lookup_insert_eq).
  assert (Hq : heap w !! q = None).
  { destruct (heap w !! q) eqn:E; [|done].
    assert (heap w2 !! q ≠ None); [|done].
    simpl. rewrite !lookup_insert_ne by done. congruence. }
  exists (set_heap (<[l := OInst (<["plugin" := VRef q]>
                                    (<["config" := VRef c]> a))]> (heap w3)) w3),
         c, q.
  split; [|split; [done|split; [|split; [|split; [done|split;
    [done|split]]]]]].
  - unfold Bot_init. rewrite !bool_decide_eq_true_2 by done. cbn [andb].
    rewrite (bind_Ok _ _ w (VRef c) w1) by done.
    rewrite (bind_Ok _ _ w1 tt w2) by (by apply setattr_run).
    rewrite (bind_Ok _ _ w2 (VRef q) w3) by done.
    by apply setattr_run.
  - unfold attr_of. simpl. rewrite lookup_insert_eq.
    by rewrite lookup_insert_ne, lookup_insert_eq.
  - unfold attr_of. simpl. rewrite lookup_insert_eq.
    by rewrite lookup_insert_eq.
  - simpl. rewrite !lookup_insert_ne by done. rewrite lookup_insert_eq. eauto.
  - simpl. rewrite lookup_insert_ne, lookup_insert_eq by done. eauto.
Qed.

(** X14.  Every call [Bot()] runs [__init__] on the one instance: the call
    after the first returns the same object, but with a new [config] and a
    new [plugin] in place of those the first call made. *)
Theorem Bot_again_reinitialises (w : world) :
  instance_ok w = true →
  ∃ i w1 w2 c1 c2 q1 q2,
    Bot [] ∅ w = Ok i w1 ∧ Bot [] ∅ w1 = Ok i w2
    ∧ attr_of w1 i "config" = Some (VRef c1)
    ∧ attr_of w2 i "config" = Some (VRef c2) ∧ c1 ≠ c2
    ∧ attr_of w1 i "plugin" = Some (VRef q1)
    ∧ attr_of w2 i "plugin" = Some (VRef q2) ∧ q1 ≠ q2.
Proof.
  intros Hok.
  destruct (Bot_new_run [] ∅ w Hok) as (wa & Hnew1 & Hi1 & _).
  destruct (is_instance_ref _ _ Hi1) as (l & a & Hil & Hl).
  destruct (Bot_init_attrs l a wa Hl)
    as (w1 & c1 & q1 & Hinit1 & Hinst1 & Hc1 & Hq1 & _ & _ & Hsc1 & Hsq1).
  assert (Hi1' : is_instance w1 (Bot_instance w1) = true).
  { rewrite Hinst1, Hil. unfold attr_of in Hc1. simpl.
    by destruct (heap w1 !! l) as [[]|]. }
  pose proof (Bot_new_again [] ∅ w1 Hi1') as Hnew2.
  rewrite Hinst1, Hil in Hnew2.
  assert (∃ a1, heap w1 !! l = Some (OInst a1)) as (a1 & Hl1).
  { unfold attr_of in Hc1. destruct (heap w1 !! l) as [[]|]; try done. eauto. }
  destruct (Bot_init_attrs l a1 w1 Hl1)
    as (w2 & c2 & q2 & Hinit2 & _ & Hc2 & Hq2 & Hn2 & Hm2 & _).
  exists (VRef l), w1, w2, c1, c2, q1, q2.
  split; [|split; [|split; [done|split; [done|split; [|split; [done|split;
    [done|]]]]]]].
  - unfold Bot. rewrite (bind_Ok _ _ _ _ _ Hnew1), Hil.
    by rewrite (bind_Ok _ _ _ _ _ Hinit1).
  - unfold Bot. rewrite (bind_Ok _ _ _ _ _ Hnew2).
    by rewrite (bind_Ok _ _ _ _ _ Hinit2).
  - destruct Hsc1 as [? Hsc1]. congruence.
  - destruct Hsq1 as [? Hsq1]. congruence.
Qed.

Lemma Bot_again_reinitialises_witness :
  ∃ i w1 w2 c1 c2 q1 q2,
    Bot [] ∅ example_world = Ok i w1 ∧ Bot [] ∅ w1 = Ok i w2
    ∧ attr_of w1 i "config" = Some (VRef c1)
    ∧ attr_of w2 i "config" = Some (VRef c2) ∧ c1 ≠ c2
    ∧ attr_of w1 i "plugin" = Some (VRef q1)
    ∧ attr_of w2 i "plugin" = Some (VRef q2) ∧ q1 ≠ q2.
Proof. apply (Bot_again_reinitialises example_world). reflexivity. Defined.

(** X15.  On a class that has no instance yet, a call [Bot(...)] with an
    argument raises [TypeError] only after [__new__] has made and stored the
    instance: the class is left with an instance that has neither [config]
    nor [plugin], and the next [Bot()] returns that very object. *)
Theorem Bot_failed_call_keeps_instance (w : world) (args : list pyval)
    (kwargs : gmap string pyval) :
  Bot_instance w = VNone → ¬ (args = [] ∧ kwargs = ∅) →
  ∃ w1 l,
    Bot args kwargs w = Raise TypeError w1
    ∧ Bot_instance w1 = VRef l ∧ heap w !! l = None
    ∧ heap w1 !! l = Some (OInst ∅)
    ∧ attr_of w1 (VRef l) "config" = None
    ∧ attr_of w1 (VRef l) "plugin" = None
    ∧ ∃ w2, Bot [] ∅ w1 = Ok (VRef l) w2.
Proof.
  intros Hnone Hargs.
  pose proof (fresh_not_allocated (heap w)) as Hfresh.
  set (l := fresh (dom (heap w))) in *.
  set (w1 := set_Bot_instance (VRef l)
               (set_heap (<[l := OInst ∅]> (heap w)) w)).
  assert (Hl1 : heap w1 !! l = Some (OInst ∅))
    by (simpl; by rewrite lookup_insert_eq).
  assert (Hnew : Bot_new args kwargs w = Ok (VRef l) w1).
  { unfold Bot_new. rewrite (bind_Ok _ _ w (Bot_instance w) w) by done.
    rewrite Hnone. by rewrite (bind_Ok _ _ w false w). }
  exists w1, l. split; [|split; [done|split; [done|split; [done|split;
    [|split]]]]].
  - unfold Bot. rewrite (bind_Ok _ _ _ _ _ Hnew).
    by rewrite (bind_Raise _ _ _ _ _ (Bot_init_arguments _ _ _ _ Hargs)).
  - by rewrite (attr_of_inst _ _ _ _ Hl1).
  - by rewrite (attr_of_inst _ _ _ _ Hl1).
  - assert (Hi1 : is_instance w1 (Bot_instance w1) = true)
      by (simpl; by rewrite lookup_insert_eq).
    pose proof (Bot_new_again [] ∅ w1 Hi1) as Hnew2.
    destruct (Bot_init_attrs l ∅ w1 Hl1) as (w2 & ? & ? & Hinit & _).
    exists w2. unfold Bot. rewrite (bind_Ok _ _ _ _ _ Hnew2).
    by rewrite (bind_Ok _ _ _ _ _ Hinit).
Qed.

Lemma Bot_failed_call_keeps_instance_witness :
  ∃ w1 l,
    Bot [VStr "x"] ∅ example_world = Raise TypeError w1
    ∧ Bot_instance w1 = VRef l ∧ heap example_world !! l = None
    ∧ heap w1 !! l = Some (OInst ∅)
    ∧ attr_of w1 (VRef l) "config" = None
    ∧ attr_of w1 (VRef l) "plugin" = None
    ∧ ∃ w2, Bot [] ∅ w1 = Ok (VRef l) w2.
Proof.
  apply (Bot_failed_call_keeps_instance example_world [VStr "x"] ∅);
    [reflexivity|].
  intros [H _]. discriminate H.
Defined.

(** ** The descriptor is shared; the snapshot is not *)




